(** * MagnetStream: the download worker of MagniTunes.py

    A shallow embedding of [DownloadWorker] (src/MagniTunes.py, lines 32-255):
    the read loop over the output of the spawned aria2c process, the
    connection deadline, the classification of output lines, and the scan of
    the download directory for music files.

    Conventions of the embedding.
    - A Python [str] is a [string]; each character is a code point below 256.
    - [time.time()] values are rationals ([Q]).
    - Qt signals and process operations are recorded, in program order, in a
      log of [action]s.  Debug [print]s are not recorded.
    - What the worker cannot decide itself (what the process writes and when,
      what the clock reads, what the disk holds afterwards) is an input.
    - Calls into the operating system are taken to succeed, save the two
      whose failure the source handles by name: the version query of
      [check_aria2] and [os.path.getsize] inside the scan.

    Beside the worker, the file embeds the state of the player thread
    ([MusicPlayer], lines 258-349), the playlist logic of the main window
    ([MagniTunesPlayer], lines 712-1038) and the search for a video of
    MagniPlay.py ([Aria2TorrentStreamer], lines 115-120).  There, a call
    that the source guards with [try] has its failure as an input, and a
    slot that can raise [IndexError] returns an option. *)

From Stdlib Require Import Bool List ZArith QArith Lia.
From Stdlib Require Import Ascii String DecimalString.
Import ListNotations.

Open Scope string_scope.
Open Scope list_scope.

Set Warnings "-register-all".

(* ------------------------------------------------------------------ *)
(** ** Python string operations used by the worker *)

Module PyStr.

(** [c.lower()] for one code point below 256: A-Z and the Latin-1 capitals
    (U+00C0 to U+00DE, the multiplication sign U+00D7 apart) move up by 32. *)
Definition lower_char (c : ascii) : ascii :=
  let n := N_of_ascii c in
  if ((65 <=? n) && (n <=? 90))%N
     || ((192 <=? n) && (n <=? 222) && negb (n =? 215))%N
  then ascii_of_N (n + 32)
  else c.

(** [s.lower()] *)
Fixpoint lower (s : string) : string :=
  match s with
  | EmptyString => EmptyString
  | String c s' => String (lower_char c) (lower s')
  end.

(** [s.startswith(p)] *)
Definition startswith (s p : string) : bool := String.prefix p s.

(** [sub in s] *)
Fixpoint contains (sub s : string) : bool :=
  String.prefix sub s
  || match s with
     | EmptyString => false
     | String _ s' => contains sub s'
     end.

(** [s.endswith(suf)] *)
Fixpoint endswith (s suf : string) : bool :=
  String.eqb s suf
  || match s with
     | EmptyString => false
     | String _ s' => endswith s' suf
     end.

(** [c.isspace()] for a code point below 256. *)
Definition isspace (c : ascii) : bool :=
  let n := N_of_ascii c in
  (((9 <=? n) && (n <=? 13)) || ((28 <=? n) && (n <=? 32))
   || (n =? 133) || (n =? 160))%N.

Fixpoint lstrip (s : string) : string :=
  match s with
  | EmptyString => EmptyString
  | String c s' => if isspace c then lstrip s' else s
  end.

Fixpoint rstrip (s : string) : string :=
  match s with
  | EmptyString => EmptyString
  | String c s' =>
      match rstrip s' with
      | EmptyString => if isspace c then EmptyString else String c EmptyString
      | r => String c r
      end
  end.

(** [s.strip()] *)
Definition strip (s : string) : string := rstrip (lstrip s).

(** [s.split(sep)] for a non-empty separator: [skip] counts the characters
    of a separator occurrence still to be passed over, [cur] is the piece
    being collected. *)
Fixpoint split_go (sep s : string) (skip : nat) (cur : string) : list string :=
  match s with
  | EmptyString => [cur]
  | String c s' =>
      match skip with
      | S k => split_go sep s' k cur
      | O =>
          if String.prefix sep s
          then cur :: split_go sep s' (String.length sep - 1) EmptyString
          else split_go sep s' 0 (cur ++ String c EmptyString)
      end
  end.

Definition split (s sep : string) : list string := split_go sep s 0 EmptyString.

Definition isdigit (c : ascii) : bool :=
  let n := N_of_ascii c in ((48 <=? n) && (n <=? 57))%N.

(** [re.search(r'(\d+)%', s)], returning [group(1)]: the first maximal run
    of digits that a percent sign follows.  [run] is the run of digits read
    so far. *)
Fixpoint re_search_go (s run : string) : option string :=
  match s with
  | EmptyString => None
  | String c s' =>
      if isdigit c then re_search_go s' (run ++ String c EmptyString)
      else if Ascii.eqb c "%" && negb (String.eqb run EmptyString) then Some run
      else re_search_go s' EmptyString
  end.

Definition re_search_percent (s : string) : option string :=
  re_search_go s EmptyString.

(** [str(n)] for a length. *)
Definition str_of_nat (n : nat) : string :=
  NilZero.string_of_uint (Nat.to_uint n).

(** [os.path.join(a, b)] on POSIX, two components. *)
Definition os_path_join (a b : string) : string :=
  if startswith b "/" then b
  else if String.eqb a EmptyString || endswith a "/" then a ++ b
  else a ++ "/" ++ b.

(** [os.path.basename(p)] on POSIX: what follows the last slash. *)
Fixpoint basename_go (s cur : string) : string :=
  match s with
  | EmptyString => cur
  | String c s' =>
      if Ascii.eqb c "/" then basename_go s' EmptyString
      else basename_go s' (cur ++ String c EmptyString)
  end.

Definition os_path_basename (p : string) : string := basename_go p EmptyString.

(** [str(z)] for an integer. *)
Definition str_of_Z (z : Z) : string :=
  if (z <? 0)%Z then "-" ++ str_of_nat (Z.to_nat (- z)) else str_of_nat (Z.to_nat z).

(** [f"{z:02d}"]: at least two characters, padded with a zero on the
    left; the sign counts as a character. *)
Definition format_02d (z : Z) : string :=
  if (z <? 0)%Z then str_of_Z z
  else if (z <? 10)%Z then "0" ++ str_of_Z z
  else str_of_Z z.

(** [l[i]] for a Python list: negative indices count from the end;
    [None] is [IndexError]. *)
Definition py_index {A} (l : list A) (i : Z) : option A :=
  let n := Z.of_nat (List.length l) in
  if ((0 <=? i) && (i <? n))%Z then nth_error l (Z.to_nat i)
  else if ((- n <=? i) && (i <? 0))%Z then nth_error l (Z.to_nat (n + i))
  else None.

(** [x in l] for a list of strings. *)
Definition py_in (x : string) (l : list string) : bool :=
  existsb (String.eqb x) l.

(** [l.index(x)]: the first position of [x]; [None] is [ValueError]. *)
Fixpoint py_list_index (x : string) (l : list string) : option nat :=
  match l with
  | [] => None
  | y :: l' =>
      if String.eqb y x then Some 0%nat
      else match py_list_index x l' with
           | Some i => Some (S i)
           | None => None
           end
  end.

End PyStr.

(* ------------------------------------------------------------------ *)
(** ** The download worker *)

Module Worker.
Import PyStr.

(** *** Signals, process operations and file-system reads, as a log *)

Inductive action : Type :=
| progress_update (msg : string)                 (* progress_update.emit(msg) *)
| download_finished (ok : bool) (msg : string)   (* download_finished.emit(ok, msg) *)
| files_found (files : list string)              (* files_found.emit(files) *)
| sleep (secs : nat)                             (* time.sleep(secs) *)
| makedirs (path : string)                       (* os.makedirs(path, exist_ok=True) *)
| Popen (cmd : list string)                      (* subprocess.Popen(cmd, ...) *)
| terminate                                      (* self.process.terminate() *)
| kill                                           (* self.process.kill() *)
| os_walk (dir : string).                        (* os.walk(dir) *)

(** What is known of the spawned process. *)
Inductive proc_status : Type :=
| Running
| Terminating            (* sent SIGTERM, not waited for *)
| Killed                 (* sent SIGKILL, not waited for *)
| Exited (returncode : Z).

(** The two flags of the read loop. *)
Record loop_state : Type := mkState {
  download_started : bool;
  connection_established : bool
}.

Definition set_download_started (st : loop_state) : loop_state :=
  mkState true (connection_established st).

Definition set_connection_established (st : loop_state) : loop_state :=
  mkState (download_started st) true.

(** How one pass through the loop body ends. *)
Inductive control : Type :=
| Continue    (* next iteration *)
| Break       (* [break]: leave the loop *)
| Return.     (* [return]: leave [run] *)

(** *** Constants of the source *)

Definition DOWNLOAD_DIR : string := "music_downloads".

Definition connection_timeout : Q := 60 # 1.

Definition peer_keywords : list string := ["connecting"; "connected"; "peer"; "seeder"].
Definition progress_keywords : list string := ["DL:"; "download"; "completed"].
Definition completion_keywords : list string :=
  ["download complete"; "finished"; "completed successfully"].
Definition error_keywords : list string := ["error"; "failed"; "cannot"; "unable"].

Definition music_extensions : list string :=
  [".flac"; ".mp3"; ".wav"; ".ogg"; ".m4a"; ".aac"; ".wma"].

Definition min_size : Z := 1024.

Definition msg_invalid : string := "Invalid magnet link format".
Definition msg_timeout : string :=
  "Timeout: Could not connect to peers within 60 seconds. The torrent might be dead or have no seeders.".
Definition msg_connected : string := "Connected to peers, starting download...".
Definition msg_in_progress : string := "Download in progress...".
Definition msg_completed : string := "Download completed! Scanning for music files...".
Definition msg_metadata : string := "Downloading torrent metadata...".
Definition msg_error (line : string) : string := "Download error: " ++ line.
Definition msg_percent (p : string) : string := "Downloading... " ++ p ++ "%".
Definition msg_scanning : string := "Scanning downloaded files...".
Definition msg_success (n : nat) : string :=
  "Successfully downloaded " ++ str_of_nat n ++ " music file(s)!".
Definition msg_other_types (n : nat) : string :=
  "Download completed but no music files found. Downloaded "
  ++ str_of_nat n ++ " file(s) of other types.".
Definition msg_nothing : string :=
  "No files were downloaded. The torrent might be empty or have no active seeders.".
Definition msg_no_peers : string :=
  "Failed to connect to any peers. The torrent might be dead or have no seeders.".
Definition msg_failed (error_msg : string) : string := "Download failed: " ++ error_msg.

(** [any(keyword in text for keyword in keywords)] *)
Definition any_in (keywords : list string) (text : string) : bool :=
  existsb (fun keyword => contains keyword text) keywords.

(** *** The deadline (lines 107-111) *)

Definition Qgtb (x y : Q) : bool :=
  match (x ?= y)%Q with Gt => true | _ => false end.

(** [not connection_established and (time.time() - start_time) > connection_timeout],
    as a function of the flag and of the elapsed time. *)
Definition timeout_check (connection_established : bool) (elapsed : Q) : bool :=
  negb connection_established && Qgtb elapsed connection_timeout.

(** *** The loop body for one non-empty output (lines 117-163) *)

(** Lines 122-125: the peer indicators, tested on their own before the
    [if]/[elif] chain. *)
Definition peer_step (st : loop_state) (line : string) : list action * loop_state :=
  if any_in peer_keywords (lower line) then
    if negb (connection_established st)
    then ([progress_update msg_connected], set_connection_established st)
    else ([], st)
  else ([], st).

(** Line 128: the test of the first branch of the chain, on the line as it
    is (no lowering). *)
Definition is_progress (line : string) : bool :=
  contains "%" line && any_in progress_keywords line.

(** Line 148 *)
Definition is_completion (line : string) : bool :=
  any_in completion_keywords (lower line).

(** Line 154 *)
Definition is_error (line : string) : bool :=
  any_in error_keywords (lower line).

(** Line 156 *)
Definition is_benign (line : string) : bool :=
  contains "dht" (lower line) || contains "server error" (lower line).

(** Line 161 *)
Definition is_metadata (line : string) : bool :=
  contains "metadata" (lower line) && contains "download" (lower line).

(** Lines 134-145: the percentage shown; [None] from an index models the
    exception the bare [except] catches. *)
Definition percent_actions (line : string) : list action :=
  if contains "(" line && contains "%)" line then
    match nth_error (split line "(") 1 with
    | Some seg =>
        match nth_error (split seg "%)") 0 with
        | Some percent_part => [progress_update (msg_percent percent_part)]
        | None => [progress_update "Downloading..."]
        end
    | None => [progress_update "Downloading..."]
    end
  else if contains "%" line then
    match re_search_percent line with
    | Some digits => [progress_update (msg_percent digits)]
    | None => []
    end
  else [].

(** Lines 127-163: the [if]/[elif] chain, in the order of the source:
    progress, completion, error, metadata. *)
Definition chain_step (st : loop_state) (line : string)
  : list action * loop_state * control :=
  if is_progress line then
    let '(started, st1) :=
      if negb (download_started st)
      then ([progress_update msg_in_progress], set_download_started st)
      else ([], st) in
    (started ++ percent_actions line, st1, Continue)
  else if is_completion line then
    ([progress_update msg_completed], set_download_started st, Break)
  else if is_error line then
    if negb (contains "dht" (lower line)) && negb (contains "server error" (lower line))
    then ([download_finished false (msg_error line)], st, Return)
    else ([], st, Continue)
  else if is_metadata line then
    ([progress_update msg_metadata], set_connection_established st, Continue)
  else ([], st, Continue).

(** Lines 118-163: [line = output.strip()], the peer test, then the chain. *)
Definition process_output (st : loop_state) (output : string)
  : list action * loop_state * control :=
  let line := strip output in
  let '(log1, st1) := peer_step st line in
  let '(log2, st2, ctl) := chain_step st1 line in
  (log1 ++ log2, st2, ctl).

(** *** The read loop (lines 106-163) *)

(** What the process and the clock do, seen from the loop: each pass reads
    the clock ([now]), then [readline()] returns [output] (empty at end of
    file) and [poll] is what [self.process.poll()] answers then.  [Silent]:
    the clock is read, and [readline()] never returns. *)
Inductive trace : Type :=
| Silent (now : Q)
| Read (now : Q) (output : string) (poll : option Z) (rest : trace).

Definition status_of_poll (poll : option Z) : proc_status :=
  match poll with
  | Some returncode => Exited returncode
  | None => Running
  end.

(** [Popen.terminate()] does nothing to a process that has exited. *)
Definition after_terminate (p : proc_status) : proc_status :=
  match p with
  | Exited returncode => Exited returncode
  | _ => Terminating
  end.

Inductive loop_exit : Type :=
| LoopBreak (log : list action) (st : loop_state) (p : proc_status)
| LoopReturn (log : list action) (st : loop_state) (p : proc_status)
| LoopBlocked (log : list action) (st : loop_state) (p : proc_status).

Definition prepend (pre : list action) (e : loop_exit) : loop_exit :=
  match e with
  | LoopBreak log st p => LoopBreak (pre ++ log) st p
  | LoopReturn log st p => LoopReturn (pre ++ log) st p
  | LoopBlocked log st p => LoopBlocked (pre ++ log) st p
  end.

Definition timeout_exit (st : loop_state) (p : proc_status) : loop_exit :=
  LoopReturn [terminate; download_finished false msg_timeout] st (after_terminate p).

Fixpoint read_loop (start_time : Q) (tr : trace) (st : loop_state) (p : proc_status)
  : loop_exit :=
  match tr with
  | Silent now =>
      if timeout_check (connection_established st) (now - start_time)
      then timeout_exit st p
      else LoopBlocked [] st p
  | Read now output poll rest =>
      if timeout_check (connection_established st) (now - start_time)
      then timeout_exit st p
      else
        let p' := status_of_poll poll in
        if String.eqb output "" then
          match poll with
          | Some _ => LoopBreak [] st p'
          | None => read_loop start_time rest st p'
          end
        else
          let '(log, st', ctl) := process_output st output in
          match ctl with
          | Continue => prepend log (read_loop start_time rest st' p')
          | Break => LoopBreak log st' p'
          | Return => LoopReturn log st' p'
          end
  end.

(** *** The scan of the download directory (lines 228-246) *)

(** A directory as [os.walk] finds it: its files, each with what
    [os.path.getsize] answers for it ([None]: it raises [OSError]), and its
    subdirectories, both in the order [os.scandir] lists them. *)
Inductive tree : Type :=
| Dir (files : list (string * option Z)) (subdirs : list (string * tree)).

Definition walk_entry : Type := (string * list string * list (string * option Z))%type.

(** [os.walk(root)], top-down: [(root, dirs, files)], then each
    subdirectory in turn. *)
Fixpoint walk (root : string) (t : tree) : list walk_entry :=
  match t with
  | Dir files subdirs =>
      (root, map fst subdirs, files)
      :: (fix walk_subdirs (l : list (string * tree)) : list walk_entry :=
            match l with
            | [] => []
            | (name, sub) :: l' => walk (os_path_join root name) sub ++ walk_subdirs l'
            end) subdirs
  end.

(** Line 237: [any(file_lower.endswith(ext) for ext in music_extensions)],
    with [file_lower = file.lower()]. *)
Definition has_music_extension (file : string) : bool :=
  let file_lower := lower file in
  existsb (fun ext => endswith file_lower ext) music_extensions.

(** Line 240 *)
Definition big_enough (size : Z) : bool := (size >? min_size)%Z.

(** The inner [for file in files]; the second component tells that
    [getsize] raised, which ends the whole scan (the [try] is around both
    loops). *)
Fixpoint scan_files (root : string) (files : list (string * option Z))
    (music_files : list string) : list string * bool :=
  match files with
  | [] => (music_files, false)
  | (file, getsize) :: rest =>
      if has_music_extension file then
        match getsize with
        | None => (music_files, true)
        | Some size =>
            if big_enough size
            then scan_files root rest (music_files ++ [os_path_join root file])
            else scan_files root rest music_files
        end
      else scan_files root rest music_files
  end.

(** The outer [for root, dirs, files in os.walk(directory)]. *)
Fixpoint scan_entries (entries : list walk_entry) (music_files : list string)
  : list string :=
  match entries with
  | [] => music_files
  | (root, _, files) :: rest =>
      let '(music_files', raised) := scan_files root files music_files in
      if raised then music_files' else scan_entries rest music_files'
  end.

Definition scan_for_music_files (directory : string) (t : tree) : list string :=
  scan_entries (walk directory t) [].

(** Lines 182-187: the names of all files below the directory. *)
Definition all_files (directory : string) (t : tree) : list string :=
  flat_map (fun e : walk_entry => map fst (snd e)) (walk directory t).

(** *** After the loop (lines 165-199) *)

(** [communicate(timeout=10)], and [kill()] when it times out.
    [grace_exit] is the return code with which a process still running
    exits within the ten seconds, if it does; a killed process is reaped
    with return code -9. *)
Definition communicate (p : proc_status) (grace_exit : option Z) : list action * Z :=
  match p with
  | Exited returncode => ([], returncode)
  | _ =>
      match grace_exit with
      | Some returncode => ([], returncode)
      | None => ([kill], (-9)%Z)
      end
  end.

(** Lines 172-199.  [stderr] is [None] there (the process was started with
    [stderr=subprocess.STDOUT]), so [error_msg] is the fixed text. *)
Definition finish (download_subdir : string) (t : tree) (st : loop_state)
    (returncode : Z) : list action :=
  if (returncode =? 0)%Z || download_started st then
    let music_files := scan_for_music_files download_subdir t in
    [progress_update msg_scanning; os_walk download_subdir]
    ++ match music_files with
       | _ :: _ =>
           [files_found music_files;
            download_finished true (msg_success (List.length music_files))]
       | [] =>
           let others := all_files download_subdir t in
           os_walk download_subdir
           :: match others with
              | _ :: _ => [download_finished false (msg_other_types (List.length others))]
              | [] => [download_finished false msg_nothing]
              end
       end
  else if negb (connection_established st) then
    [download_finished false msg_no_peers]
  else
    [download_finished false (msg_failed "Unknown download error")].

(** *** [check_aria2] (lines 206-226) *)

Inductive probe : Type :=
| ProbeExit (returncode : Z)   (* the version query ran *)
| ProbeNotFound                (* FileNotFoundError *)
| ProbeTimeout.                (* subprocess.TimeoutExpired *)

Definition check_aria2 (pr : probe) : list action * bool :=
  match pr with
  | ProbeExit returncode =>
      if (returncode =? 0)%Z
      then ([progress_update "aria2c found, preparing download..."], true)
      else ([download_finished false "aria2c is not working properly"], false)
  | ProbeNotFound =>
      ([download_finished false "aria2c not found. Please install aria2"], false)
  | ProbeTimeout =>
      ([download_finished false "aria2c check timed out"], false)
  end.

(** *** [run] (lines 43-204) *)

Record environment : Type := mkEnv {
  aria2_probe : probe;         (* how the version query ends *)
  md5_hexdigest : string;      (* hashlib.md5(magnet_link.encode()).hexdigest() *)
  start_time : Q;              (* time.time() at line 103 *)
  output_trace : trace;        (* the process and the clock, as the loop meets them *)
  grace_exit : option Z;       (* see [communicate] *)
  downloaded : tree            (* the download directory when it is scanned *)
}.

Record run_result : Type := mkResult {
  log : list action;
  process : option proc_status;   (* [None]: self.process is None *)
  blocked : bool                  (* the thread is stuck in readline() *)
}.

Definition download_subdir_of (env : environment) : string :=
  os_path_join DOWNLOAD_DIR ("torrent_" ++ substring 0 8 (md5_hexdigest env)).

Definition aria2c_cmd (magnet_link download_subdir : string) : list string :=
  ["aria2c"; magnet_link; "--dir"; download_subdir;
   "--seed-time=0"; "--file-allocation=none"; "--continue=true";
   "--max-connection-per-server=16"; "--split=16"; "--min-split-size=1M";
   "--max-concurrent-downloads=1"; "--summary-interval=2";
   "--console-log-level=warn"; "--log-level=warn";
   "--bt-tracker-timeout=10"; "--bt-tracker-connect-timeout=5";
   "--dht-entry-point-timeout=10"; "--timeout=30"; "--retry-wait=3";
   "--max-tries=3"].

Definition initial_state : loop_state := mkState false false.

(** The log up to and including the spawn (lines 50-98). *)
Definition spawn_log (magnet_link : string) (env : environment) (probe_log : list action)
  : list action :=
  [progress_update "Validating magnet link..."; sleep 1]
  ++ probe_log
  ++ [progress_update "Starting download with aria2c...";
      makedirs (download_subdir_of env);
      progress_update "Connecting to DHT network and trackers...";
      Popen (aria2c_cmd magnet_link (download_subdir_of env))].

(** The loop as [run] enters it. *)
Definition run_loop (env : environment) : loop_exit :=
  read_loop (start_time env) (output_trace env) initial_state Running.

Definition run (magnet_link : string) (env : environment) : run_result :=
  if negb (startswith magnet_link "magnet:?") then
    mkResult [download_finished false msg_invalid] None false
  else
    let '(probe_log, available) := check_aria2 (aria2_probe env) in
    if negb available then
      mkResult ([progress_update "Validating magnet link..."; sleep 1] ++ probe_log)
               None false
    else
      let pre := spawn_log magnet_link env probe_log in
      match run_loop env with
      | LoopReturn l _ p => mkResult (pre ++ l) (Some p) false
      | LoopBlocked l _ p => mkResult (pre ++ l) (Some p) true
      | LoopBreak l st p =>
          let '(reap, returncode) := communicate p (grace_exit env) in
          mkResult (pre ++ l ++ reap
                    ++ finish (download_subdir_of env) (downloaded env) st returncode)
                   (Some (Exited returncode)) false
      end.

(** *** [stop_download] (lines 248-255) *)

(** [wait_exit]: the return code, when the process exits within the five
    seconds of [wait(timeout=5)]. *)
Definition stop_download (process : option proc_status) (wait_exit : option Z)
  : list action * option proc_status :=
  match process with
  | None => ([], process)
  | Some (Exited _) => ([], process)
  | Some _ =>
      match wait_exit with
      | Some returncode => ([terminate], Some (Exited returncode))
      | None => ([terminate; kill], Some Killed)
      end
  end.

(* ------------------------------------------------------------------ *)
(** ** The music player thread (MagniTunes.py, lines 258-349) *)

Module MusicPlayer.

(** Calls into [pygame.mixer.music], signals, and the start of the
    thread, in program order. *)
Inductive action : Type :=
| mixer_set_volume (v : Q)       (* pygame.mixer.music.set_volume(v) *)
| mixer_load (path : string)     (* pygame.mixer.music.load(path) *)
| mixer_play                     (* pygame.mixer.music.play() *)
| mixer_unpause                  (* pygame.mixer.music.unpause() *)
| mixer_pause                    (* pygame.mixer.music.pause() *)
| mixer_stop                     (* pygame.mixer.music.stop() *)
| position_changed (n : Z)       (* position_changed.emit(n) *)
| duration_changed (n : Z)       (* duration_changed.emit(n) *)
| start.                         (* self.start() *)

Record player : Type := mkPlayer {
  current_track : option string;   (* [None] is Python's None *)
  is_playing : bool;
  is_paused : bool;
  position : Z;
  duration : Z;
  volume : Q
}.

(** [__init__] (lines 263-271). *)
Definition init : list action * player :=
  ([mixer_set_volume (7 # 10)], mkPlayer None false false 0 0 (7 # 10)).

(** What the file system, pygame and mutagen answer for one path:
    [os.path.exists], [os.path.getsize] ([None]: it raises),
    whether [pygame.mixer.music.load] succeeds, and the whole seconds
    [int(audio.info.length)] when mutagen opens the file and the test of
    line 306 passes ([None]: otherwise, the exception included). *)
Record file_facts : Type := mkFacts {
  path_exists : bool;
  getsize : option Z;
  mixer_loads : bool;
  read_duration : option Z
}.

Definition set_duration (p : player) (d : Z) : player :=
  mkPlayer (current_track p) (is_playing p) (is_paused p) (position p) d (volume p).

(** [get_duration] (lines 293-315): mutagen is asked for ".flac" and
    ".mp3" only; every other way out is the default of 180 seconds. *)
Definition get_duration (p : player) (read : option Z) : list action * player :=
  match current_track p with
  | None => ([], p)
  | Some track =>
      if String.eqb track "" then ([], p)
      else
        let d :=
          if endswith (lower track) ".flac" || endswith (lower track) ".mp3"
          then match read with
               | Some seconds => seconds
               | None => 180%Z
               end
          else 180%Z in
        ([duration_changed d], set_duration p d)
  end.

(** [load_track] (lines 273-291).  The track is recorded before pygame
    loads it. *)
Definition load_track (p : player) (file_path : string) (f : file_facts)
  : list action * bool * player :=
  if negb (path_exists f) then ([], false, p)
  else
    match getsize f with
    | None => ([], false, p)
    | Some size =>
        if (size =? 0)%Z then ([], false, p)
        else
          let p1 := mkPlayer (Some file_path) (is_playing p) (is_paused p)
                             (position p) (duration p) (volume p) in
          if negb (mixer_loads f) then ([mixer_load file_path], false, p1)
          else
            let '(emitted, p2) := get_duration p1 (read_duration f) in
            (mixer_load file_path :: emitted, true, p2)
    end.

Definition has_track (p : player) : bool :=
  match current_track p with
  | Some track => negb (String.eqb track "")
  | None => false
  end.

(** [play] (lines 317-332).  [mixer_ok]: the call into the mixer does
    not raise; [is_running]: what [self.isRunning()] answers. *)
Definition play (p : player) (mixer_ok is_running : bool) : list action * bool * player :=
  if has_track p then
    let call := if is_paused p then mixer_unpause else mixer_play in
    if mixer_ok then
      ([call] ++ (if is_running then [] else [start]),
       true,
       mkPlayer (current_track p) true (if is_paused p then false else is_paused p)
                (position p) (duration p) (volume p))
    else ([call], false, p)
  else ([], false, p).

(** [pause] (lines 334-338) *)
Definition pause (p : player) : list action * player :=
  if is_playing p then
    ([mixer_pause],
     mkPlayer (current_track p) false true (position p) (duration p) (volume p))
  else ([], p).

(** [stop] (lines 340-345) *)
Definition stop (p : player) : list action * player :=
  ([mixer_stop; position_changed 0],
   mkPlayer (current_track p) false false 0 (duration p) (volume p)).

(** [set_volume] (lines 347-349) *)
Definition set_volume (p : player) (v : Z) : list action * player :=
  let v' := (inject_Z v / (100 # 1))%Q in
  ([mixer_set_volume v'],
   mkPlayer (current_track p) (is_playing p) (is_paused p) (position p) (duration p) v').

End MusicPlayer.

(* ------------------------------------------------------------------ *)
(** ** The main window (MagniTunes.py, lines 478-482 and 712-1038) *)

Module MagniTunesPlayer.

(** What the window shows or asks for.  The play/pause glyph and the
    texts built from tags are kept by what they stand for; the detailed
    text of the failure box is left out. *)
Inductive ui : Type :=
| status (text : string)                   (* status_label.setText(text) *)
| download_status (text : string)          (* download_status.setText(text) *)
| information (title text : string)        (* QMessageBox.information *)
| warning (title text : string)            (* QMessageBox.warning *)
| box_information (title text informative : string)   (* the box of lines 757-762 *)
| box_warning (title text : string)        (* the box of lines 766-780 *)
| play_pause_button (playing : bool)       (* the pause glyph ([true]) or the play glyph *)
| track_info (file_path : string)          (* update_track_info(file_path) *)
| track_info_none                          (* track_info_label.setText("No track loaded") *)
| download_controls (downloading : bool)   (* lines 724-730, or reset_download_ui *)
| worker_start (magnet_link : string)      (* DownloadWorker(magnet_link).start() *)
| button_highlight (shuffle on : bool)     (* the style sheet of the mode button *)
| player (a : MusicPlayer.action).

Record window : Type := mkWindow {
  current_playlist : list string;
  current_track_index : Z;
  shuffle_mode : bool;
  repeat_mode : bool;
  music_player : MusicPlayer.player;
  playlist_widget : list string;    (* the UserRole data of the rows, in order *)
  current_row : option nat;         (* the row made current, if any *)
  download_worker : option string   (* the magnet link of the worker, if any *)
}.

(** Lines 478-482, with [setup_player]. *)
Definition init : window :=
  mkWindow [] 0 false false (snd MusicPlayer.init) [] None None.

Definition with_playlist (w : window) (l widget : list string) (row : option nat) : window :=
  mkWindow l (current_track_index w) (shuffle_mode w) (repeat_mode w)
           (music_player w) widget row (download_worker w).

Definition with_index (w : window) (i : Z) : window :=
  mkWindow (current_playlist w) i (shuffle_mode w) (repeat_mode w)
           (music_player w) (playlist_widget w) (current_row w) (download_worker w).

Definition with_player (w : window) (p : MusicPlayer.player) : window :=
  mkWindow (current_playlist w) (current_track_index w) (shuffle_mode w) (repeat_mode w)
           p (playlist_widget w) (current_row w) (download_worker w).

Definition with_row (w : window) (row : option nat) : window :=
  mkWindow (current_playlist w) (current_track_index w) (shuffle_mode w) (repeat_mode w)
           (music_player w) (playlist_widget w) row (download_worker w).

Definition with_worker (w : window) (d : option string) : window :=
  mkWindow (current_playlist w) (current_track_index w) (shuffle_mode w) (repeat_mode w)
           (music_player w) (playlist_widget w) (current_row w) d.

Definition with_modes (w : window) (shuffle repeat : bool) : window :=
  mkWindow (current_playlist w) (current_track_index w) shuffle repeat
           (music_player w) (playlist_widget w) (current_row w) (download_worker w).

(** What lies outside the window when a track is loaded and played. *)
Record world : Type := mkWorld {
  facts : string -> MusicPlayer.file_facts;
  mixer_ok : bool;
  is_running : bool
}.

(** [format_time] (lines 1035-1038) *)
Definition format_time (seconds : Z) : string :=
  let minutes := (seconds / 60)%Z in
  let seconds := (seconds mod 60)%Z in
  format_02d minutes ++ ":" ++ format_02d seconds.

(** [add_to_playlist_widget] (lines 838-863): one more row, whose data
    is the path. *)
Definition add_to_playlist_widget (w : window) (file_path : string) : window :=
  with_playlist w (current_playlist w) (playlist_widget w ++ [file_path]) (current_row w).

(** The body of the loop of [add_files_to_playlist]. *)
Definition add_file (w : window) (file_path : string) : window :=
  if negb (py_in file_path (current_playlist w)) then
    add_to_playlist_widget
      (with_playlist w (current_playlist w ++ [file_path]) (playlist_widget w) (current_row w))
      file_path
  else w.

(** [add_files_to_playlist] (lines 782-789) *)
Definition add_files_to_playlist (w : window) (file_paths : list string)
  : list ui * window :=
  ([status ("Added " ++ str_of_nat (List.length file_paths) ++ " music file(s) to playlist")],
   fold_left add_file file_paths w).

(** [load_and_play_track] (lines 871-884) *)
Definition load_and_play_track (w : window) (file_path : string) (o : world)
  : list ui * window :=
  if negb (MusicPlayer.path_exists (facts o file_path)) then
    ([warning "File Not Found" ("Could not find file: " ++ file_path)], w)
  else
    let '(loading, loaded, p1) :=
      MusicPlayer.load_track (music_player w) file_path (facts o file_path) in
    if loaded then
      let '(playing, played, p2) := MusicPlayer.play p1 (mixer_ok o) (is_running o) in
      (map player loading ++ [track_info file_path] ++ map player playing
         ++ (if played
             then [play_pause_button true;
                   status ("Playing: " ++ os_path_basename file_path)]
             else [warning "Playback Error" "Could not start playback"]),
       with_player w p2)
    else
      (map player loading ++ [warning "Load Error" "Could not load the audio file"],
       with_player w p1).

(** The first row whose data is the file. *)
Definition find_row (file : string) (rows : list string) : option nat :=
  py_list_index file rows.

(** [highlight_current_track] (lines 964-972); [None] is [IndexError]. *)
Definition highlight_current_track (w : window) : option window :=
  if (current_track_index w <? Z.of_nat (List.length (current_playlist w)))%Z then
    match py_index (current_playlist w) (current_track_index w) with
    | None => None
    | Some current_file =>
        match find_row current_file (playlist_widget w) with
        | Some i => Some (with_row w (Some i))
        | None => Some w
        end
    end
  else Some w.

(** The common part of [next_track] and [previous_track], from the new
    index on. *)
Definition go_to (w : window) (index : Z) (o : world) : option (list ui * window) :=
  let w1 := with_index w index in
  match py_index (current_playlist w1) index with
  | None => None
  | Some file_path =>
      let '(shown, w2) := load_and_play_track w1 file_path o in
      match highlight_current_track w2 with
      | Some w3 => Some (shown, w3)
      | None => None
      end
  end.

(** [next_track] (lines 934-947).  [randint] is what
    [random.randint(0, len(self.current_playlist) - 1)] returns. *)
Definition next_track (w : window) (randint : Z) (o : world) : option (list ui * window) :=
  match current_playlist w with
  | [] => Some ([information "No Music" "Playlist is empty"], w)
  | _ :: _ =>
      let n := Z.of_nat (List.length (current_playlist w)) in
      go_to w (if shuffle_mode w then randint else ((current_track_index w + 1) mod n)%Z) o
  end.

(** [previous_track] (lines 949-962) *)
Definition previous_track (w : window) (randint : Z) (o : world)
  : option (list ui * window) :=
  match current_playlist w with
  | [] => Some ([information "No Music" "Playlist is empty"], w)
  | _ :: _ =>
      let n := Z.of_nat (List.length (current_playlist w)) in
      go_to w (if shuffle_mode w then randint else ((current_track_index w - 1) mod n)%Z) o
  end.

(** [on_track_finished] (lines 1016-1020) *)
Definition on_track_finished (w : window) (randint : Z) (o : world)
  : option (list ui * window) :=
  if repeat_mode w then
    match py_index (current_playlist w) (current_track_index w) with
    | Some file_path => Some (load_and_play_track w file_path o)
    | None => None
    end
  else next_track w randint o.

(** [play_selected_track] (lines 865-869), for the data of the item. *)
Definition play_selected_track (w : window) (file_path : string) (o : world)
  : list ui * window :=
  if py_in file_path (current_playlist w) then
    match py_list_index file_path (current_playlist w) with
    | Some i => load_and_play_track (with_index w (Z.of_nat i)) file_path o
    | None => ([], w)
    end
  else ([], w).

(** [stop_playback] (lines 929-932) *)
Definition stop_playback (w : window) : list ui * window :=
  let '(stopping, p) := MusicPlayer.stop (music_player w) in
  (map player stopping ++ [play_pause_button false; status "Stopped"], with_player w p).

(** [toggle_play_pause] (lines 913-927); [None] is [IndexError]. *)
Definition toggle_play_pause (w : window) (o : world) : option (list ui * window) :=
  if MusicPlayer.is_playing (music_player w) then
    let '(pausing, p) := MusicPlayer.pause (music_player w) in
    Some (map player pausing ++ [play_pause_button false; status "Paused"], with_player w p)
  else
    match current_playlist w with
    | [] => Some ([information "No Music" "Please add some music to the playlist first"], w)
    | _ :: _ =>
        if (current_track_index w <? Z.of_nat (List.length (current_playlist w)))%Z then
          match MusicPlayer.current_track (music_player w) with
          | None =>
              match py_index (current_playlist w) (current_track_index w) with
              | Some file_path => Some (load_and_play_track w file_path o)
              | None => None
              end
          | Some _ =>
              let '(playing, played, p) :=
                MusicPlayer.play (music_player w) (mixer_ok o) (is_running o) in
              Some (map player playing
                      ++ (if played then [play_pause_button true; status "Playing"] else []),
                    with_player w p)
          end
        else Some ([information "No Music" "Please add some music to the playlist first"], w)
    end.

(** [clear_playlist] (lines 1022-1033); [yes]: the answer to the
    question. *)
Definition clear_playlist (w : window) (yes : bool) : list ui * window :=
  if yes then
    let '(stopping, w1) := stop_playback (with_playlist w [] [] None) in
    (stopping ++ [track_info_none; status "Playlist cleared"], w1)
  else ([], w).

(** [toggle_shuffle] and [toggle_repeat] (lines 974-994) *)
Definition toggle_shuffle (w : window) : list ui * window :=
  let on := negb (shuffle_mode w) in
  ([button_highlight true on;
    status (if on then "Shuffle mode enabled" else "Shuffle mode disabled")],
   with_modes w on (repeat_mode w)).

Definition toggle_repeat (w : window) : list ui * window :=
  let on := negb (repeat_mode w) in
  ([button_highlight false on;
    status (if on then "Repeat mode enabled" else "Repeat mode disabled")],
   with_modes w (shuffle_mode w) on).

(** [change_volume] (lines 996-998) *)
Definition change_volume (w : window) (value : Z) : list ui * window :=
  let '(setting, p) := MusicPlayer.set_volume (music_player w) value in
  (map player setting ++ [status ("Volume: " ++ str_of_Z value ++ "%")], with_player w p).

(** The inner loop of [add_test_files]: as in the worker's scan, with
    the test that the path is not in the playlist yet. *)
Fixpoint test_files (playlist : list string) (root : string)
    (files : list (string * option Z)) (found_files : list string)
  : list string * bool :=
  match files with
  | [] => (found_files, false)
  | (file, getsize) :: rest =>
      if has_music_extension file then
        match getsize with
        | None => (found_files, true)
        | Some size =>
            if big_enough size && negb (py_in (os_path_join root file) playlist)
            then test_files playlist root rest (found_files ++ [os_path_join root file])
            else test_files playlist root rest found_files
        end
      else test_files playlist root rest found_files
  end.

Fixpoint test_entries (playlist : list string) (entries : list walk_entry)
    (found_files : list string) : list string * bool :=
  match entries with
  | [] => (found_files, false)
  | (root, _, files) :: rest =>
      let '(found_files', raised) := test_files playlist root files found_files in
      if raised then (found_files', true) else test_entries playlist rest found_files'
  end.

(** [add_test_files] (lines 815-836).  [disk]: the download directory,
    when it exists; [error]: the text of the exception, when [getsize]
    raises. *)
Definition add_test_files (w : window) (disk : option tree) (error : string)
  : list ui * window :=
  let '(found_files, raised) :=
    match disk with
    | Some t => test_entries (current_playlist w) (walk DOWNLOAD_DIR t) []
    | None => ([], false)
    end in
  if raised then ([warning "Error" ("Error scanning for files: " ++ error)], w)
  else
    match found_files with
    | _ :: _ => add_files_to_playlist w found_files
    | [] => ([information "No Files Found" ("No audio files found in " ++ DOWNLOAD_DIR)], w)
    end.

(** [start_download] (lines 712-737), for the text of the input field. *)
Definition start_download (w : window) (text : string) : list ui * window :=
  let magnet_link := strip text in
  if String.eqb magnet_link "" then
    ([warning "Invalid Input" "Please enter a magnet link."], w)
  else if negb (startswith magnet_link "magnet:?") then
    ([warning "Invalid Magnet Link"
              "Please enter a valid magnet link starting with 'magnet:?'"], w)
  else
    ([download_controls true; worker_start magnet_link],
     with_worker w (Some magnet_link)).

(** [reset_download_ui] (lines 791-797) *)
Definition reset_download_ui (w : window) : list ui * window :=
  ([download_controls false], with_worker w None).

(** [update_download_progress] (lines 747-749) *)
Definition update_download_progress (w : window) (message : string) : list ui * window :=
  ([download_status message; status message], w).

(** [on_download_finished] (lines 751-780) *)
Definition on_download_finished (w : window) (success : bool) (message : string)
  : list ui * window :=
  let '(resetting, w1) := reset_download_ui w in
  (resetting
     ++ (if success
         then [status message;
               box_information "Download Complete" message
                               "Files have been added to your playlist."]
         else [status ("Download failed: " ++ message);
               box_warning "Download Failed" "The download could not be completed."]),
   w1).

(** The three connections of lines 734-736: what a signal of the worker
    does to the window. *)
Definition on_signal (w : window) (a : action) : list ui * window :=
  match a with
  | progress_update msg => update_download_progress w msg
  | download_finished ok msg => on_download_finished w ok msg
  | files_found files => add_files_to_playlist w files
  | _ => ([], w)
  end.

(** The signals of a log, delivered in order. *)
Fixpoint deliver (w : window) (signals : list action) : list ui * window :=
  match signals with
  | [] => ([], w)
  | a :: rest =>
      let '(shown, w1) := on_signal w a in
      let '(shown', w2) := deliver w1 rest in
      (shown ++ shown', w2)
  end.

End MagniTunesPlayer.

(* ------------------------------------------------------------------ *)
(** ** The streamer (MagniPlay.py, lines 115-120) *)

Module Aria2TorrentStreamer.

Definition DOWNLOAD_DIR : string := "downloads".

Definition video_extensions : list string := [".mp4"; ".mkv"; ".avi"; ".mov"].

(** [file.endswith((".mp4", ".mkv", ".avi", ".mov"))], on the name as
    it is. *)
Definition is_video (file : string) : bool :=
  existsb (fun ext => endswith file ext) video_extensions.

(** The inner loop: the first video among the files of one directory. *)
Fixpoint first_video (files : list (string * option Z)) : option string :=
  match files with
  | [] => None
  | (file, _) :: rest => if is_video file then Some file else first_video rest
  end.

(** The outer loop over [os.walk(DOWNLOAD_DIR)]. *)
Fixpoint find_in_entries (entries : list walk_entry) : option string :=
  match entries with
  | [] => None
  | (_, _, files) :: rest =>
      match first_video files with
      | Some file => Some file
      | None => find_in_entries rest
      end
  end.

(** [find_video_file] (lines 115-120): the bare name of the file. *)
Definition find_video_file (t : tree) : option string :=
  find_in_entries (walk DOWNLOAD_DIR t).

(** The path that [open_downloaded_file] and [delete_downloaded_file]
    use (lines 140 and 152). *)
Definition video_path (video_file : string) : string :=
  os_path_join DOWNLOAD_DIR video_file.

End Aria2TorrentStreamer.

(* ------------------------------------------------------------------ *)
(** ** Notions used in the statements, and sample environments *)

(** The three components of what a step yields. *)
Definition log_of (r : list action * loop_state * control) : list action := fst (fst r).

Definition state_of (r : list action * loop_state * control) : loop_state := snd (fst r).

Definition ctl_of (r : list action * loop_state * control) : control := snd r.

(** The log and the flags with which the loop is left. *)
Definition exit_log (e : loop_exit) : list action :=
  match e with
  | LoopBreak l _ _ | LoopReturn l _ _ | LoopBlocked l _ _ => l
  end.

Definition exit_state (e : loop_exit) : loop_state :=
  match e with
  | LoopBreak _ st _ | LoopReturn _ st _ | LoopBlocked _ st _ => st
  end.

(** What the two tests of the inner loop select, and where [getsize] is
    reached and raises. *)
Definition qualifies (f : string * option Z) : bool :=
  has_music_extension (fst f)
  && match snd f with
     | Some size => big_enough size
     | None => false
     end.

Definition getsize_raises (f : string * option Z) : bool :=
  has_music_extension (fst f)
  && match snd f with
     | Some _ => false
     | None => true
     end.

(** The paths the inner loop adds for one directory of the walk. *)
Definition paths_of (root : string) (files : list (string * option Z)) : list string :=
  map (fun f => os_path_join root (fst f)) (filter qualifies files).

Definition entry_paths (e : walk_entry) : list string :=
  paths_of (fst (fst e)) (snd e).

(** A path is that of a qualifying file found by the walk. *)
Definition qualifying_path (directory : string) (t : tree) (path : string) : Prop :=
  exists root dirs files file size,
    In (root, dirs, files) (walk directory t)
    /\ In (file, Some size) files
    /\ path = os_path_join root file
    /\ has_music_extension file = true
    /\ (size > min_size)%Z.

(** No [getsize] that the scan reaches raises. *)
Definition getsize_never_raises (directory : string) (t : tree) : Prop :=
  forall e, In e (walk directory t) -> existsb getsize_raises (snd e) = false.

(** What [check_aria2] logs when the version query exits with 0. *)
Definition probe_ok_log : list action :=
  [progress_update "aria2c found, preparing download..."].


(** The log shows a line taken by the progress branch or by the
    completion branch. *)
Definition started_in (l : list action) : Prop :=
  In (progress_update msg_in_progress) l \/ In (progress_update msg_completed) l.

(** The run has walked its download directory. *)
Definition scanned (magnet_link : string) (env : environment) : Prop :=
  In (os_walk (download_subdir_of env)) (log (run magnet_link env)).

(** The last action of the run is a failure. *)
Definition ends_in_failure (r : run_result) : Prop :=
  exists pre msg, log r = pre ++ [download_finished false msg].

(** A well-formed magnet link, a digest, and the end of a line. *)
Definition a_magnet_link : string := "magnet:?xt=urn:btih:0123456789abcdef0123456789abcdef01234567".

Definition a_digest : string := "5d41402abc4b2a76b9719d911017c592".

Definition newline : string := String (ascii_of_nat 10) EmptyString.

(** One progress line, then the process exits with return code 1. *)
Definition env_progress_then_exit_1 : environment :=
  mkEnv (ProbeExit 0) a_digest 0
        (Read (1 # 1) ("[#2089b0 5MiB/10MiB(50%) CN:2 DL:1MiB]" ++ newline) None
           (Read (2 # 1) "" (Some 1%Z) (Silent (3 # 1))))
        None (Dir [] []).

(** The process writes an error line and keeps running. *)
Definition env_fatal_line : environment :=
  mkEnv (ProbeExit 0) a_digest 0
        (Read (1 # 2) ("ERROR: disk full" ++ newline) None (Silent (1 # 1)))
        None (Dir [] []).

(** The process writes nothing and does not exit: the first clock reading
    is the start time, and [readline()] does not return. *)
Definition env_silent : environment :=
  mkEnv (ProbeExit 0) a_digest 0 (Silent 0) None (Dir [] []).

(** The process writes nothing and exits with return code 1 after more
    than 60 seconds: [readline()] returns the empty string then. *)
Definition env_silent_then_exit : environment :=
  mkEnv (ProbeExit 0) a_digest 0 (Read 0 "" (Some 1%Z) (Silent (61 # 1))) None (Dir [] []).

(** The action is a terminal outcome ([download_finished]). *)
Definition is_outcome (a : action) : bool :=
  match a with
  | download_finished _ _ => true
  | _ => false
  end.

(** The action is a spawn. *)
Definition is_spawn (a : action) : bool :=
  match a with
  | Popen _ => true
  | _ => false
  end.

(** The actions the read loop can log: progress messages, failures, and
    [terminate]. *)
Definition loop_action (a : action) : Prop :=
  match a with
  | progress_update _ | download_finished false _ | terminate => True
  | _ => False
  end.

(** The three failures of [check_aria2]. *)
Definition probe_failures : list string :=
  ["aria2c is not working properly";
   "aria2c not found. Please install aria2";
   "aria2c check timed out"].

(** [check_aria2] answers [True]. *)
Definition available (env : environment) : bool := snd (check_aria2 (aria2_probe env)).

(** The scan of each subdirectory, under its own path. *)
Definition scan_subdirs (directory : string) (subdirs : list (string * tree)) : list string :=
  flat_map (fun nt : string * tree =>
              scan_for_music_files (os_path_join directory (fst nt)) (snd nt)) subdirs.

(* ------------------------------------------------------------------ *)
(** ** Notions used in the further statements, and sample data *)

Definition env_one_track : environment :=
  mkEnv (ProbeExit 0) a_digest 0
        (Read (1 # 1) "" (Some 0%Z) (Silent (2 # 1))) None
        (Dir [("cover.jpg", Some 90000%Z)] [("cd1", Dir [("01 Intro.FLAC", Some 2048%Z)] [])]).

(** The operations of the player, as the window calls them. *)
Inductive player_op : Type :=
| Load (file_path : string) (f : MusicPlayer.file_facts)
| Play (mixer_ok is_running : bool)
| Pause
| Stop
| SetVolume (v : Z).

Definition player_step (p : MusicPlayer.player) (o : player_op) : MusicPlayer.player :=
  match o with
  | Load file_path f => snd (MusicPlayer.load_track p file_path f)
  | Play mixer_ok is_running => snd (MusicPlayer.play p mixer_ok is_running)
  | Pause => snd (MusicPlayer.pause p)
  | Stop => snd (MusicPlayer.stop p)
  | SetVolume v => snd (MusicPlayer.set_volume p v)
  end.

(** The player after a sequence of operations on a fresh one. *)
Definition player_after (ops : list player_op) : MusicPlayer.player :=
  fold_left player_step ops (snd MusicPlayer.init).

(** Playing and paused exclude each other, and either needs a track. *)
Definition player_ok (p : MusicPlayer.player) : Prop :=
  MusicPlayer.is_playing p && MusicPlayer.is_paused p = false
  /\ (MusicPlayer.is_playing p || MusicPlayer.is_paused p = true ->
      MusicPlayer.current_track p <> None).

(** The paths that [add_files_to_playlist] appends to a playlist [l]:
    those of [files] that are not in [l] and were not appended before. *)
Fixpoint new_files (l files : list string) : list string :=
  match files with
  | [] => []
  | x :: rest => if py_in x l then new_files l rest else x :: new_files (l ++ [x]) rest
  end.

Definition three_tracks : MagniTunesPlayer.window :=
  MagniTunesPlayer.mkWindow ["a.mp3"; "b.mp3"; "c.mp3"] 7 false false
    (snd MusicPlayer.init) ["a.mp3"; "b.mp3"; "c.mp3"] None None.

Definition quiet_world : MagniTunesPlayer.world :=
  MagniTunesPlayer.mkWorld (fun _ => MusicPlayer.mkFacts true (Some 4096%Z) true None)
                           true false.

Definition first_of_three : MagniTunesPlayer.window :=
  MagniTunesPlayer.mkWindow ["a.mp3"; "b.mp3"; "c.mp3"] 0 false false
    (snd MusicPlayer.init) ["a.mp3"; "b.mp3"; "c.mp3"] None None.

Definition digit_value (c : ascii) : option Z :=
  if isdigit c then Some (Z.of_N (N_of_ascii c) - 48)%Z else None.

(** Reading a text of the form MM:SS back as seconds. *)
Definition parse_mmss (s : string) : option Z :=
  match s with
  | String a (String b (String c (String d (String e EmptyString)))) =>
      if Ascii.eqb c ":" then
        match digit_value a, digit_value b, digit_value d, digit_value e with
        | Some m1, Some m0, Some s1, Some s0 =>
            Some ((10 * m1 + m0) * 60 + 10 * s1 + s0)%Z
        | _, _, _, _ => None
        end
      else None
  | _ => None
  end.

Definition mmss_round_trip (n : nat) : bool :=
  match parse_mmss (MagniTunesPlayer.format_time (Z.of_nat n)) with
  | Some z => (z =? Z.of_nat n)%Z
  | None => false
  end.

(** What can happen to the window: the buttons, the double click, the
    end of a track, and the signals of the worker. *)
Inductive window_op : Type :=
| AddFiles (file_paths : list string)
| AddTestFiles (disk : option tree) (error : string)
| ClearPlaylist (yes : bool)
| NextTrack (randint : Z) (o : MagniTunesPlayer.world)
| PreviousTrack (randint : Z) (o : MagniTunesPlayer.world)
| TrackFinished (randint : Z) (o : MagniTunesPlayer.world)
| SelectTrack (file_path : string) (o : MagniTunesPlayer.world)
| TogglePlayPause (o : MagniTunesPlayer.world)
| StopPlayback
| ToggleShuffle
| ToggleRepeat
| ChangeVolume (value : Z)
| StartDownload (text : string)
| WorkerSignal (a : action).

(** The window after one of them; [None] when the slot raises. *)
Definition window_step (w : MagniTunesPlayer.window) (op : window_op)
  : option MagniTunesPlayer.window :=
  match op with
  | AddFiles file_paths => Some (snd (MagniTunesPlayer.add_files_to_playlist w file_paths))
  | AddTestFiles disk error => Some (snd (MagniTunesPlayer.add_test_files w disk error))
  | ClearPlaylist yes => Some (snd (MagniTunesPlayer.clear_playlist w yes))
  | NextTrack randint o => option_map snd (MagniTunesPlayer.next_track w randint o)
  | PreviousTrack randint o => option_map snd (MagniTunesPlayer.previous_track w randint o)
  | TrackFinished randint o => option_map snd (MagniTunesPlayer.on_track_finished w randint o)
  | SelectTrack file_path o => Some (snd (MagniTunesPlayer.play_selected_track w file_path o))
  | TogglePlayPause o => option_map snd (MagniTunesPlayer.toggle_play_pause w o)
  | StopPlayback => Some (snd (MagniTunesPlayer.stop_playback w))
  | ToggleShuffle => Some (snd (MagniTunesPlayer.toggle_shuffle w))
  | ToggleRepeat => Some (snd (MagniTunesPlayer.toggle_repeat w))
  | ChangeVolume value => Some (snd (MagniTunesPlayer.change_volume w value))
  | StartDownload text => Some (snd (MagniTunesPlayer.start_download w text))
  | WorkerSignal a => Some (snd (MagniTunesPlayer.on_signal w a))
  end.

Fixpoint window_after (w : MagniTunesPlayer.window) (ops : list window_op)
  : option MagniTunesPlayer.window :=
  match ops with
  | [] => Some w
  | op :: rest =>
      match window_step w op with
      | Some w1 => window_after w1 rest
      | None => None
      end
  end.

(** The rows of the list widget are the playlist, the playlist has no
    duplicates, and the player is consistent. *)
Definition window_ok (w : MagniTunesPlayer.window) : Prop :=
  MagniTunesPlayer.playlist_widget w = MagniTunesPlayer.current_playlist w
  /\ NoDup (MagniTunesPlayer.current_playlist w)
  /\ player_ok (MagniTunesPlayer.music_player w).

Definition a_session : list window_op :=
  [AddFiles ["a.mp3"; "b.flac"; "a.mp3"];
   NextTrack 0 quiet_world;
   TogglePlayPause quiet_world;
   ClearPlaylist true;
   AddFiles ["c.ogg"];
   PreviousTrack 0 quiet_world].

(** The path is not in the playlist. *)
Definition fresh (playlist : list string) (path : string) : bool :=
  negb (py_in path playlist).

Definition no_files_found : list MagniTunesPlayer.ui :=
  [MagniTunesPlayer.information "No Files Found"
     ("No audio files found in " ++ DOWNLOAD_DIR)].

Definition a_library : tree :=
  Dir [("notes.txt", Some 4000%Z)]
      [("torrent_5d41402a", Dir [("01.flac", Some 9000%Z); ("02.flac", Some 12%Z)] [])].

(* ------------------------------------------------------------------ *)
(** ** Checks of the string operations on concrete inputs *)

Example lower_ex : lower "DL: Server ERROR (42%)" = "dl: server error (42%)".
Proof. reflexivity. Qed.

Example strip_ex : strip "  [#1 DL:3%]  " = "[#1 DL:3%]".
Proof. reflexivity. Qed.

Example split_ex1 : split "a(b(c" "(" = ["a"; "b"; "c"].
Proof. reflexivity. Qed.

Example split_ex2 : split "12%)x%)" "%)" = ["12"; "x"; ""].
Proof. reflexivity. Qed.

Example re_search_ex : re_search_percent "a 12 b 345% 6%" = Some "345".
Proof. reflexivity. Qed.

Example str_of_nat_ex : str_of_nat 0 = "0" /\ str_of_nat 120 = "120".
Proof. split; reflexivity. Qed.

Example join_ex :
  os_path_join "music_downloads" "torrent_ab" = "music_downloads/torrent_ab".
Proof. reflexivity. Qed.

Example progress_line_ex :
  process_output initial_state "[#2089b0 10MiB/20MiB(50%) CN:4 DL:1.2MiB]"
  = ([progress_update msg_in_progress; progress_update "Downloading... 50%"],
     mkState true false, Continue).
Proof. reflexivity. Qed.

Example benign_line_ex :
  process_output initial_state "[DHT] error connecting to peer"
  = ([progress_update msg_connected], mkState false true, Continue).
Proof. reflexivity. Qed.

(* ------------------------------------------------------------------ *)
(** ** Projections of a step and of a loop exit *)

Lemma exit_log_prepend pre e : exit_log (prepend pre e) = pre ++ exit_log e.
Proof. destruct e; reflexivity. Qed.

Lemma exit_state_prepend pre e : exit_state (prepend pre e) = exit_state e.
Proof. destruct e; reflexivity. Qed.

(** [process_output] in terms of its two stages. *)
Lemma process_output_unfold st output :
  process_output st output
  = (fst (peer_step st (strip output))
       ++ log_of (chain_step (snd (peer_step st (strip output))) (strip output)),
     state_of (chain_step (snd (peer_step st (strip output))) (strip output)),
     ctl_of (chain_step (snd (peer_step st (strip output))) (strip output))).
Proof.
  unfold process_output.
  destruct (peer_step st (strip output)) as [log1 st1]; simpl.
  destruct (chain_step st1 (strip output)) as [[log2 st2] ctl]; reflexivity.
Qed.

(** *** The deadline *)

Lemma Qgtb_spec x y : Qgtb x y = true <-> (y < x)%Q.
Proof.
  unfold Qgtb. rewrite (Qgt_alt x y).
  destruct (x ?= y)%Q; split; intro H; congruence.
Qed.

Lemma timeout_check_spec c elapsed :
  timeout_check c elapsed = true <-> (connection_timeout < elapsed)%Q /\ c = false.
Proof.
  unfold timeout_check. rewrite andb_true_iff, negb_true_iff, Qgtb_spec. tauto.
Qed.

(** *** The flags only ever go up *)

Lemma peer_step_connection st line :
  connection_established st = true ->
  peer_step st line = ([], st).
Proof.
  intros H. unfold peer_step.
  destruct (any_in peer_keywords (lower line)); [rewrite H|]; reflexivity.
Qed.

Lemma peer_step_keeps st line :
  connection_established st = true ->
  connection_established (snd (peer_step st line)) = true.
Proof. intros H. rewrite peer_step_connection; assumption. Qed.

Lemma peer_step_download_started st line :
  download_started (snd (peer_step st line)) = download_started st.
Proof.
  unfold peer_step.
  destruct (any_in peer_keywords (lower line)); [|reflexivity].
  destruct (negb (connection_established st)); reflexivity.
Qed.

Lemma chain_step_keeps st line :
  connection_established st = true ->
  connection_established (state_of (chain_step st line)) = true.
Proof.
  intros H. unfold chain_step.
  destruct (is_progress line).
  { destruct (negb (download_started st)); simpl; assumption. }
  destruct (is_completion line); [simpl; assumption|].
  destruct (is_error line).
  { destruct (negb (contains "dht" (lower line)) && negb (contains "server error" (lower line)));
      simpl; assumption. }
  destruct (is_metadata line); simpl; auto.
Qed.

Lemma process_output_keeps st output :
  connection_established st = true ->
  connection_established (state_of (process_output st output)) = true.
Proof.
  intros H. rewrite process_output_unfold. unfold state_of at 1; simpl.
  apply chain_step_keeps, peer_step_keeps, H.
Qed.

(** *** What a step can put in the log *)

Lemma peer_step_log st line a :
  In a (fst (peer_step st line)) -> a = progress_update msg_connected.
Proof.
  unfold peer_step.
  destruct (any_in peer_keywords (lower line)); [|intros []].
  destruct (negb (connection_established st)); simpl; intuition.
Qed.

Lemma percent_actions_log line a :
  In a (percent_actions line) -> exists p, a = progress_update p.
Proof.
  unfold percent_actions.
  destruct (contains "(" line && contains "%)" line).
  - destruct (nth_error (split line "(") 1) as [seg|].
    + destruct (nth_error (split seg "%)") 0); simpl; intros [<-|[]]; eauto.
    + simpl; intros [<-|[]]; eauto.
  - destruct (contains "%" line); [|intros []].
    destruct (re_search_percent line); simpl; [intros [<-|[]]; eauto | intros []].
Qed.

(** Every action of a step is a progress message, save the one failure of
    the error branch, with which the step returns. *)
Lemma chain_step_log st line a :
  In a (log_of (chain_step st line)) ->
  (exists m, a = progress_update m)
  \/ (a = download_finished false (msg_error line)
      /\ ctl_of (chain_step st line) = Return).
Proof.
  unfold chain_step.
  destruct (is_progress line).
  { destruct (negb (download_started st)); unfold log_of; simpl.
    - intros [<-|H]; [eauto|]. left. eapply percent_actions_log; eauto.
    - intros H. left. eapply percent_actions_log; eauto. }
  destruct (is_completion line).
  { unfold log_of; simpl. intros [<-|[]]; eauto. }
  destruct (is_error line).
  { destruct (negb (contains "dht" (lower line)) && negb (contains "server error" (lower line)));
      unfold log_of; simpl.
    - intros [<-|[]]. right. split; reflexivity.
    - intros []. }
  destruct (is_metadata line); unfold log_of; simpl.
  - intros [<-|[]]; eauto.
  - intros [].
Qed.

Lemma process_output_log st output a :
  In a (log_of (process_output st output)) ->
  (exists m, a = progress_update m)
  \/ (a = download_finished false (msg_error (strip output))
      /\ ctl_of (process_output st output) = Return).
Proof.
  rewrite process_output_unfold. unfold log_of at 1, ctl_of at 1; simpl.
  rewrite in_app_iff. intros [H|H].
  - left. apply peer_step_log in H. eauto.
  - apply chain_step_log in H. exact H.
Qed.

(* ------------------------------------------------------------------ *)
(** ** The connection deadline *)

Lemma msg_error_not_timeout line : msg_error line <> msg_timeout.
Proof. unfold msg_error, msg_timeout. simpl. discriminate. Qed.

(** From a state in which the connection is established, the loop never
    takes the timeout exit, whatever the clock reads afterwards. *)
Lemma read_loop_no_timeout start tr :
  forall st p,
    connection_established st = true ->
    ~ In terminate (exit_log (read_loop start tr st p))
    /\ ~ In (download_finished false msg_timeout) (exit_log (read_loop start tr st p)).
Proof.
  induction tr as [now | now output poll rest IH]; intros st p Hc; simpl; rewrite Hc; simpl.
  - split; intros [].
  - destruct (String.eqb output "").
    + destruct poll; simpl; [split; intros []|]. apply IH, Hc.
    + pose proof (process_output_keeps st output Hc) as Hk.
      pose proof (process_output_log st output) as Hl.
      destruct (process_output st output) as [[l st'] ctl].
      unfold state_of, log_of, ctl_of in *; simpl in *.
      assert (Hnt : ~ In terminate l).
      { intros Hin. destruct (Hl _ Hin) as [[m Hm]|[Hm _]]; discriminate. }
      assert (Hnf : ~ In (download_finished false msg_timeout) l).
      { intros Hin. destruct (Hl _ Hin) as [[m Hm]|[Hm _]]; [discriminate|].
        apply (msg_error_not_timeout (strip output)). congruence. }
      destruct ctl; simpl; auto.
      rewrite exit_log_prepend. destruct (IH st' (status_of_poll poll) Hk) as [I1 I2].
      split; rewrite in_app_iff; tauto.
Qed.

(** C3, as the source has it.  The deadline check answers "abort" exactly
    when the elapsed time is strictly greater than 60 and the connection is
    not established; the flag, once set, is kept by every later line, and
    from then on the loop never takes the timeout exit (no [terminate], no
    timeout failure), whatever the clock reads. *)
Theorem timeout_policy_strict
    (c : bool) (elapsed : Q) (st : loop_state) (output : string)
    (start : Q) (tr : trace) (p : proc_status) :
  (timeout_check c elapsed = true <-> (connection_timeout < elapsed)%Q /\ c = false)
  /\ (connection_established st = true ->
      timeout_check (connection_established st) elapsed = false
      /\ connection_established (state_of (process_output st output)) = true
      /\ ~ In terminate (exit_log (read_loop start tr st p))
      /\ ~ In (download_finished false msg_timeout) (exit_log (read_loop start tr st p))).
Proof.
  split; [apply timeout_check_spec|].
  intros Hc. split; [rewrite Hc; reflexivity|].
  split; [apply process_output_keeps, Hc|].
  apply read_loop_no_timeout, Hc.
Qed.

Lemma timeout_policy_strict_witness :
  connection_established (mkState false true) = true
  /\ (timeout_check false (61 # 1) = true
      <-> (connection_timeout < 61 # 1)%Q /\ false = false)
  /\ ~ In terminate
       (exit_log (read_loop 0 (Read (1 # 1) "peer found" None (Silent (500 # 1)))
                            (mkState false true) Running)).
Proof.
  pose proof (timeout_policy_strict false (61 # 1) (mkState false true) "x" 0
                (Read (1 # 1) "peer found" None (Silent (500 # 1))) Running) as [H1 H2].
  split; [reflexivity|]. split; [exact H1|].
  destruct (H2 eq_refl) as [_ [_ [H3 _]]]. exact H3.
Defined.

(** C3 as stated fails at the boundary: at an elapsed time of exactly 60,
    with no connection, the check does not signal. *)
Lemma timeout_boundary_counterexample :
  (connection_timeout <= 60 # 1)%Q
  /\ connection_established initial_state = false
  /\ timeout_check (connection_established initial_state) (60 # 1) = false.
Proof.
  split; [|split; reflexivity].
  unfold connection_timeout. apply Qle_refl.
Qed.

(* ------------------------------------------------------------------ *)
(** ** Classification of lines *)

Lemma chain_step_benign st line :
  is_benign line = true ->
  ctl_of (chain_step st line) <> Return
  /\ forall ok msg, ~ In (download_finished ok msg) (log_of (chain_step st line)).
Proof.
  intros Hb.
  assert (Hn : negb (contains "dht" (lower line))
               && negb (contains "server error" (lower line)) = false).
  { unfold is_benign in Hb. rewrite <- negb_orb, Hb. reflexivity. }
  split.
  - unfold chain_step.
    destruct (is_progress line).
    { destruct (negb (download_started st)); discriminate. }
    destruct (is_completion line); [discriminate|].
    destruct (is_error line); [rewrite Hn; discriminate|].
    destruct (is_metadata line); discriminate.
  - intros ok msg Hin.
    destruct (chain_step_log st line _ Hin) as [[m Hm]|[_ Hr]]; [discriminate|].
    revert Hr. unfold chain_step.
    destruct (is_progress line).
    { destruct (negb (download_started st)); discriminate. }
    destruct (is_completion line); [discriminate|].
    destruct (is_error line); [rewrite Hn; discriminate|].
    destruct (is_metadata line); discriminate.
Qed.

Lemma peer_step_no_finished st line ok msg :
  ~ In (download_finished ok msg) (fst (peer_step st line)).
Proof. intros Hin. apply peer_step_log in Hin. discriminate. Qed.

(** C7.  A line that contains "error" and also "dht" (in any letter case)
    is not treated as fatal: the step does not return and emits no
    [download_finished]; in the loop, that line leads to the next read or to
    a [break], never to the error exit. *)
Theorem dht_error_is_benign
    (st : loop_state) (output : string)
    (Herror : contains "error" (lower (strip output)) = true)
    (Hdht : contains "dht" (lower (strip output)) = true) :
  ctl_of (process_output st output) <> Return
  /\ (forall ok msg, ~ In (download_finished ok msg) (log_of (process_output st output)))
  /\ (forall start now poll rest p,
        timeout_check (connection_established st) (now - start) = false ->
        read_loop start (Read now output poll rest) st p
        = match ctl_of (process_output st output) with
          | Break => LoopBreak (log_of (process_output st output))
                               (state_of (process_output st output)) (status_of_poll poll)
          | _ => prepend (log_of (process_output st output))
                         (read_loop start rest (state_of (process_output st output))
                                    (status_of_poll poll))
          end).
Proof.
  assert (Hb : is_benign (strip output) = true).
  { unfold is_benign. rewrite Hdht. reflexivity. }
  assert (Hctl : ctl_of (process_output st output) <> Return).
  { rewrite process_output_unfold. unfold ctl_of at 1; simpl.
    apply chain_step_benign, Hb. }
  split; [exact Hctl|]. split.
  - intros ok msg. rewrite process_output_unfold. unfold log_of at 1; simpl.
    rewrite in_app_iff. intros [H|H].
    + exact (peer_step_no_finished _ _ _ _ H).
    + exact (proj2 (chain_step_benign _ _ Hb) _ _ H).
  - intros start now poll rest p Ht. simpl. rewrite Ht.
    destruct (String.eqb output "") eqn:E.
    + apply String.eqb_eq in E. subst output. discriminate Herror.
    + destruct (process_output st output) as [[l st'] ctl].
      unfold ctl_of, log_of, state_of in *; simpl in *.
      destruct ctl; congruence.
Qed.

Lemma dht_error_is_benign_witness :
  contains "error" (lower (strip "[DHT] Error: no response from node")) = true
  /\ contains "dht" (lower (strip "[DHT] Error: no response from node")) = true
  /\ ctl_of (process_output initial_state "[DHT] Error: no response from node") <> Return.
Proof.
  split; [reflexivity|]. split; [reflexivity|].
  exact (proj1 (dht_error_is_benign initial_state
                  "[DHT] Error: no response from node" eq_refl eq_refl)).
Defined.

(** What the chain does once the progress test has failed. *)
Lemma chain_step_completion st line :
  is_progress line = false ->
  is_completion line = true ->
  chain_step st line = ([progress_update msg_completed], set_download_started st, Break).
Proof. intros Hp Hc. unfold chain_step. rewrite Hp, Hc. reflexivity. Qed.

Lemma chain_step_fatal st line :
  is_progress line = false ->
  is_completion line = false ->
  is_error line = true ->
  is_benign line = false ->
  chain_step st line = ([download_finished false (msg_error line)], st, Return).
Proof.
  intros Hp Hc He Hb. unfold chain_step. rewrite Hp, Hc, He.
  unfold is_benign in Hb. rewrite <- negb_orb, Hb. reflexivity.
Qed.

(** C8, as the source has it.  A line with a completion indicator (in any
    letter case) that does not pass the progress test (a percent sign
    together with "DL:", "download" or "completed", letter case as given)
    is classified as completion: the completion message is emitted,
    [download_started] is set, and the loop is left by [break]. *)
Theorem completion_after_progress_test
    (st : loop_state) (output : string)
    (Hcompletion : any_in completion_keywords (lower (strip output)) = true)
    (Hprogress : is_progress (strip output) = false) :
  process_output st output
  = (fst (peer_step st (strip output)) ++ [progress_update msg_completed],
     set_download_started (snd (peer_step st (strip output))),
     Break).
Proof.
  rewrite process_output_unfold.
  rewrite (chain_step_completion _ _ Hprogress Hcompletion). reflexivity.
Qed.

Lemma completion_after_progress_test_witness :
  any_in completion_keywords (lower (strip "Download Complete: /tmp/a.flac")) = true
  /\ is_progress (strip "Download Complete: /tmp/a.flac") = false
  /\ process_output initial_state "Download Complete: /tmp/a.flac"
     = ([progress_update msg_completed], mkState true false, Break).
Proof.
  split; [reflexivity|]. split; [reflexivity|].
  exact (completion_after_progress_test initial_state
           "Download Complete: /tmp/a.flac" eq_refl eq_refl).
Defined.

(** C8 as stated fails: a line with the completion indicator "download
    complete" that also passes the progress test is taken by the progress
    branch, and the loop goes on. *)
Lemma completion_counterexample :
  any_in completion_keywords (lower (strip "[#1] 100% download complete")) = true
  /\ process_output initial_state "[#1] 100% download complete"
     = ([progress_update msg_in_progress; progress_update "Downloading... 100%"],
        mkState true false, Continue).
Proof. split; reflexivity. Qed.

(** C2, as the source has it.  A line with a fatal indicator and neither
    benign substring is classified as a fatal error when it passes neither
    the progress test nor the completion test, which come first in the
    chain; peer and metadata indicators in the same line do not change
    that (the peer test runs on its own and the metadata branch comes
    later). *)
Theorem fatal_after_progress_and_completion
    (st : loop_state) (output : string)
    (Hfatal : any_in error_keywords (lower (strip output)) = true)
    (Hdht : contains "dht" (lower (strip output)) = false)
    (Hserver : contains "server error" (lower (strip output)) = false)
    (Hprogress : is_progress (strip output) = false)
    (Hcompletion : is_completion (strip output) = false) :
  process_output st output
  = (fst (peer_step st (strip output))
       ++ [download_finished false (msg_error (strip output))],
     snd (peer_step st (strip output)),
     Return).
Proof.
  rewrite process_output_unfold.
  rewrite (chain_step_fatal _ (strip output) Hprogress Hcompletion Hfatal).
  - reflexivity.
  - unfold is_benign. rewrite Hdht, Hserver. reflexivity.
Qed.

Lemma fatal_after_progress_and_completion_witness :
  any_in error_keywords (lower (strip "Unable to reach peer: metadata download aborted")) = true
  /\ contains "dht" (lower (strip "Unable to reach peer: metadata download aborted")) = false
  /\ contains "server error"
       (lower (strip "Unable to reach peer: metadata download aborted")) = false
  /\ is_progress (strip "Unable to reach peer: metadata download aborted") = false
  /\ is_completion (strip "Unable to reach peer: metadata download aborted") = false
  /\ process_output initial_state "Unable to reach peer: metadata download aborted"
     = ([progress_update msg_connected;
         download_finished false
           "Download error: Unable to reach peer: metadata download aborted"],
        mkState false true, Return).
Proof.
  repeat (split; [reflexivity|]).
  exact (fatal_after_progress_and_completion initial_state
           "Unable to reach peer: metadata download aborted"
           eq_refl eq_refl eq_refl eq_refl eq_refl).
Defined.

(** C2 as stated fails: a line with the fatal indicator "error", no benign
    substring, and the completion indicator "finished" is taken by the
    completion branch; no failure is emitted. *)
Lemma fatal_priority_counterexample :
  any_in error_keywords (lower (strip "transfer finished with error")) = true
  /\ is_benign (strip "transfer finished with error") = false
  /\ process_output initial_state "transfer finished with error"
     = ([progress_update msg_completed], mkState true false, Break).
Proof. repeat split. Qed.

(* ------------------------------------------------------------------ *)
(** ** Validation of the magnet link *)

(** C9.  When the magnet link does not start with "magnet:?", [run] emits
    the one failure "Invalid magnet link format" and nothing else: no
    sleep, no probe, no process is spawned ([self.process] stays [None]). *)
Theorem invalid_magnet_link
    (magnet_link : string) (env : environment)
    (Hprefix : startswith magnet_link "magnet:?" = false) :
  run magnet_link env = mkResult [download_finished false msg_invalid] None false
  /\ (forall cmd, ~ In (Popen cmd) (log (run magnet_link env)))
  /\ process (run magnet_link env) = None.
Proof.
  assert (E : run magnet_link env
              = mkResult [download_finished false msg_invalid] None false).
  { unfold run. rewrite Hprefix. reflexivity. }
  rewrite E. split; [reflexivity|]. split; [|reflexivity].
  intros cmd [H|[]]. discriminate H.
Qed.

Lemma invalid_magnet_link_witness :
  startswith "http://example.org/a.torrent" "magnet:?" = false
  /\ log (run "http://example.org/a.torrent"
              (mkEnv (ProbeExit 0) "0123456789abcdef0123456789abcdef" 0
                     (Silent 0) None (Dir [] [])))
     = [download_finished false "Invalid magnet link format"].
Proof.
  split; [reflexivity|].
  exact (f_equal log
           (proj1 (invalid_magnet_link "http://example.org/a.torrent"
                     (mkEnv (ProbeExit 0) "0123456789abcdef0123456789abcdef" 0
                            (Silent 0) None (Dir [] [])) eq_refl))).
Defined.

(* ------------------------------------------------------------------ *)
(** ** The scan for music files *)




Lemma scan_files_spec root files :
  forall music_files,
    existsb getsize_raises files = false ->
    scan_files root files music_files = (music_files ++ paths_of root files, false).
Proof.
  unfold paths_of.
  induction files as [|[file getsize] rest IH]; intros acc Hr; simpl.
  - rewrite app_nil_r. reflexivity.
  - simpl in Hr. apply orb_false_iff in Hr as [Hf Hr].
    unfold getsize_raises in Hf. unfold qualifies at 1. simpl in *.
    destruct (has_music_extension file); simpl in *.
    + destruct getsize as [size|]; [|discriminate].
      destruct (big_enough size); simpl.
      * rewrite IH by assumption. rewrite <- app_assoc. reflexivity.
      * apply IH; assumption.
    + apply IH; assumption.
Qed.

(** Whatever [getsize] does, the scan only ever adds qualifying files. *)
Lemma scan_files_sound root files :
  forall music_files path,
    In path (fst (scan_files root files music_files)) ->
    In path music_files \/ In path (paths_of root files).
Proof.
  unfold paths_of.
  induction files as [|[file getsize] rest IH]; intros acc path; simpl; [tauto|].
  unfold qualifies at 1; simpl.
  destruct (has_music_extension file); simpl.
  - destruct getsize as [size|]; simpl; [|tauto].
    destruct (big_enough size); simpl.
    + intros H. apply IH in H. rewrite in_app_iff in H. simpl in H. tauto.
    + apply IH.
  - apply IH.
Qed.

Lemma scan_entries_spec entries :
  forall music_files,
    (forall e, In e entries -> existsb getsize_raises (snd e) = false) ->
    scan_entries entries music_files = music_files ++ flat_map entry_paths entries.
Proof.
  induction entries as [|[[root dirs] files] rest IH]; intros acc Hr; simpl.
  - rewrite app_nil_r. reflexivity.
  - rewrite scan_files_spec by (apply (Hr (root, dirs, files)); left; reflexivity).
    rewrite IH by (intros e He; apply Hr; right; exact He).
    rewrite <- app_assoc. reflexivity.
Qed.

Lemma scan_entries_sound entries :
  forall music_files path,
    In path (scan_entries entries music_files) ->
    In path music_files \/ In path (flat_map entry_paths entries).
Proof.
  induction entries as [|[[root dirs] files] rest IH]; intros acc path; simpl; [tauto|].
  pose proof (scan_files_sound root files acc path) as Hs.
  destruct (scan_files root files acc) as [acc' raised]; simpl in Hs.
  rewrite in_app_iff. unfold entry_paths at 1; simpl.
  destruct raised.
  - intros H. apply Hs in H. tauto.
  - intros H. apply IH in H. destruct H as [H|H]; [apply Hs in H|]; tauto.
Qed.

Lemma in_entry_paths directory t path :
  In path (flat_map entry_paths (walk directory t)) <-> qualifying_path directory t path.
Proof.
  unfold qualifying_path, entry_paths, paths_of. rewrite in_flat_map. split.
  - intros [[[root dirs] files] [He Hp]]. simpl in Hp.
    apply in_map_iff in Hp as [[file getsize] [Hj Hf]].
    apply filter_In in Hf as [Hf Hq].
    unfold qualifies in Hq. simpl in *.
    apply andb_true_iff in Hq as [Hext Hsize].
    destruct getsize as [size|]; [|discriminate].
    exists root, dirs, files, file, size.
    repeat split; auto.
    unfold big_enough in Hsize. apply Z.gtb_lt in Hsize. lia.
  - intros (root & dirs & files & file & size & He & Hf & Hp & Hext & Hsize).
    exists (root, dirs, files). split; [exact He|]. simpl.
    apply in_map_iff. exists (file, Some size). split; [auto|].
    apply filter_In. split; [exact Hf|].
    unfold qualifies; simpl. rewrite Hext. simpl.
    unfold big_enough. apply Z.gtb_lt. lia.
Qed.

Lemma scan_sound directory t path :
  In path (scan_for_music_files directory t) -> qualifying_path directory t path.
Proof.
  intros H. apply scan_entries_sound in H as [[]|H].
  apply in_entry_paths, H.
Qed.



Example upper_case_flac :
  scan_for_music_files "music_downloads/torrent_ab" (Dir [("Track 01.FLAC", Some 2000%Z)] [])
  = ["music_downloads/torrent_ab/Track 01.FLAC"].
Proof. reflexivity. Qed.

(* ------------------------------------------------------------------ *)
(** ** The end of a run *)

(** [run] when the loop is left by [break]. *)
Lemma run_break magnet_link env l st p :
  startswith magnet_link "magnet:?" = true ->
  aria2_probe env = ProbeExit 0 ->
  run_loop env = LoopBreak l st p ->
  run magnet_link env
  = mkResult
      (spawn_log magnet_link env probe_ok_log ++ l
         ++ fst (communicate p (grace_exit env))
         ++ finish (download_subdir_of env) (downloaded env) st
              (snd (communicate p (grace_exit env))))
      (Some (Exited (snd (communicate p (grace_exit env))))) false.
Proof.
  intros Hm Hp Hl. unfold run. rewrite Hm, Hp, Hl. simpl.
  destruct (communicate p (grace_exit env)) as [reap returncode]. reflexivity.
Qed.

Lemma run_return magnet_link env l st p :
  startswith magnet_link "magnet:?" = true ->
  aria2_probe env = ProbeExit 0 ->
  run_loop env = LoopReturn l st p ->
  run magnet_link env = mkResult (spawn_log magnet_link env probe_ok_log ++ l) (Some p) false.
Proof. intros Hm Hp Hl. unfold run. rewrite Hm, Hp, Hl. reflexivity. Qed.

Lemma run_blocked magnet_link env l st p :
  startswith magnet_link "magnet:?" = true ->
  aria2_probe env = ProbeExit 0 ->
  run_loop env = LoopBlocked l st p ->
  run magnet_link env = mkResult (spawn_log magnet_link env probe_ok_log ++ l) (Some p) true.
Proof. intros Hm Hp Hl. unfold run. rewrite Hm, Hp, Hl. reflexivity. Qed.





(* ------------------------------------------------------------------ *)
(** ** When the directory is scanned *)

Lemma chain_step_return st line :
  ctl_of (chain_step st line) = Return ->
  log_of (chain_step st line) = [download_finished false (msg_error line)].
Proof.
  unfold chain_step.
  destruct (is_progress line).
  { destruct (negb (download_started st)); discriminate. }
  destruct (is_completion line); [discriminate|].
  destruct (is_error line).
  { destruct (negb (contains "dht" (lower line)) && negb (contains "server error" (lower line)));
      [reflexivity | discriminate]. }
  destruct (is_metadata line); discriminate.
Qed.

Lemma process_output_return st output :
  ctl_of (process_output st output) = Return ->
  exists pre msg, log_of (process_output st output) = pre ++ [download_finished false msg].
Proof.
  rewrite process_output_unfold. unfold ctl_of at 1, log_of at 1; simpl.
  intros H. rewrite (chain_step_return _ _ H).
  exists (fst (peer_step st (strip output))), (msg_error (strip output)). reflexivity.
Qed.

(** Leaving the loop by [return] is always preceded by a failure. *)
Lemma read_loop_return start tr :
  forall st p l st' p',
    read_loop start tr st p = LoopReturn l st' p' ->
    exists pre msg, l = pre ++ [download_finished false msg].
Proof.
  induction tr as [now | now output poll rest IH]; intros st p l st' p'; simpl.
  - destruct (timeout_check _ _); [|discriminate].
    unfold timeout_exit. intros [= <- _ _]. exists [terminate], msg_timeout. reflexivity.
  - destruct (timeout_check _ _).
    { unfold timeout_exit. intros [= <- _ _]. exists [terminate], msg_timeout. reflexivity. }
    destruct (String.eqb output "").
    { destruct poll; [discriminate|]. apply IH. }
    pose proof (process_output_return st output) as Hr.
    destruct (process_output st output) as [[lo so] ctl].
    unfold ctl_of, log_of in Hr; simpl in Hr.
    destruct ctl; [|discriminate|].
    + destruct (read_loop start rest so (status_of_poll poll)) eqn:E; simpl; try discriminate.
      intros [= <- _ _]. apply IH in E as (pre & msg & ->).
      exists (lo ++ pre), msg. rewrite app_assoc. reflexivity.
    + intros [= <- _ _]. apply Hr. reflexivity.
Qed.

(** The loop itself never reads the download directory. *)
Lemma read_loop_no_walk start tr d :
  forall st p, ~ In (os_walk d) (exit_log (read_loop start tr st p)).
Proof.
  induction tr as [now | now output poll rest IH]; intros st p; simpl.
  - destruct (timeout_check _ _); simpl; intuition discriminate.
  - destruct (timeout_check _ _); [simpl; intuition discriminate|].
    destruct (String.eqb output "").
    { destruct poll; [simpl; tauto | apply IH]. }
    pose proof (process_output_log st output) as Hl.
    destruct (process_output st output) as [[lo so] ctl].
    unfold ctl_of, log_of in Hl; simpl in Hl.
    assert (Hn : ~ In (os_walk d) lo).
    { intros Hin. destruct (Hl _ Hin) as [[m Hm]|[Hm _]]; discriminate. }
    destruct ctl; simpl; auto.
    rewrite exit_log_prepend, in_app_iff. specialize (IH so (status_of_poll poll)). tauto.
Qed.

Lemma started_in_app l1 l2 : started_in (l1 ++ l2) <-> started_in l1 \/ started_in l2.
Proof. unfold started_in. rewrite !in_app_iff. tauto. Qed.

Lemma peer_step_not_started st line : ~ started_in (fst (peer_step st line)).
Proof.
  intros [H|H]; apply peer_step_log in H; discriminate.
Qed.

(** [download_started] is set exactly by the progress branch and by the
    completion branch, which announce themselves in the log. *)
Lemma chain_step_started st line :
  download_started (state_of (chain_step st line)) = true
  <-> download_started st = true \/ started_in (log_of (chain_step st line)).
Proof.
  unfold chain_step, started_in.
  destruct (is_progress line).
  { destruct (download_started st) eqn:E; unfold state_of, log_of; simpl.
    - rewrite E. tauto.
    - tauto. }
  destruct (is_completion line).
  { unfold state_of, log_of; simpl. tauto. }
  destruct (is_error line).
  { destruct (negb (contains "dht" (lower line)) && negb (contains "server error" (lower line)));
      unfold state_of, log_of; simpl; intuition discriminate. }
  destruct (is_metadata line); unfold state_of, log_of; simpl; intuition discriminate.
Qed.

Lemma process_output_started st output :
  download_started (state_of (process_output st output)) = true
  <-> download_started st = true \/ started_in (log_of (process_output st output)).
Proof.
  rewrite process_output_unfold.
  set (ps := peer_step st (strip output)).
  set (cs := chain_step (snd ps) (strip output)).
  change (download_started (state_of cs) = true
          <-> download_started st = true \/ started_in (fst ps ++ log_of cs)).
  rewrite started_in_app. subst cs. rewrite chain_step_started.
  subst ps. rewrite peer_step_download_started.
  pose proof (peer_step_not_started st (strip output)). tauto.
Qed.

Lemma read_loop_started start tr :
  forall st p,
    download_started (exit_state (read_loop start tr st p)) = true
    <-> download_started st = true \/ started_in (exit_log (read_loop start tr st p)).
Proof.
  assert (Ht : forall st p,
             download_started (exit_state (timeout_exit st p)) = true
             <-> download_started st = true \/ started_in (exit_log (timeout_exit st p))).
  { intros st p. unfold started_in; simpl. intuition discriminate. }
  induction tr as [now | now output poll rest IH]; intros st p; simpl.
  - destruct (timeout_check _ _); [apply Ht|].
    unfold started_in; simpl. tauto.
  - destruct (timeout_check _ _); [apply Ht|].
    destruct (String.eqb output "").
    { destruct poll; [unfold started_in; simpl; tauto | apply IH]. }
    pose proof (process_output_started st output) as Hs.
    destruct (process_output st output) as [[lo so] ctl].
    unfold state_of, log_of in Hs; simpl in Hs.
    destruct ctl; simpl; try exact Hs.
    rewrite exit_state_prepend, exit_log_prepend, started_in_app, IH. tauto.
Qed.

Lemma spawn_log_no_walk magnet_link env d :
  ~ In (os_walk d) (spawn_log magnet_link env probe_ok_log).
Proof. unfold spawn_log, probe_ok_log. simpl. intuition discriminate. Qed.

Lemma communicate_no_walk p grace d : ~ In (os_walk d) (fst (communicate p grace)).
Proof.
  unfold communicate.
  destruct p; try destruct grace; simpl; intuition discriminate.
Qed.

Lemma finish_walk d t st returncode :
  In (os_walk d) (finish d t st returncode)
  <-> returncode = 0%Z \/ download_started st = true.
Proof.
  unfold finish. rewrite <- Z.eqb_eq, <- orb_true_iff.
  destruct ((returncode =? 0)%Z || download_started st).
  - simpl. tauto.
  - destruct (negb (connection_established st)); simpl; intuition discriminate.
Qed.

Lemma finish_failure d t st returncode :
  ~ In (os_walk d) (finish d t st returncode) ->
  exists msg, finish d t st returncode = [download_finished false msg].
Proof.
  unfold finish.
  destruct ((returncode =? 0)%Z || download_started st).
  - simpl. tauto.
  - destruct (negb (connection_established st)); eauto.
Qed.

Lemma finish_success d t st returncode f fs :
  In (os_walk d) (finish d t st returncode) ->
  scan_for_music_files d t = f :: fs ->
  finish d t st returncode
  = [progress_update msg_scanning; os_walk d; files_found (f :: fs);
     download_finished true (msg_success (List.length (f :: fs)))].
Proof.
  unfold finish.
  destruct ((returncode =? 0)%Z || download_started st).
  - intros _ ->. reflexivity.
  - destruct (negb (connection_established st)); simpl; intuition discriminate.
Qed.

(** C5, as the source has it.  When the loop is left by [break], the
    directory is scanned exactly when the return code is 0 or
    [download_started] is set, and that flag is set exactly when a line was
    taken by the progress branch or by the completion branch; without a
    scan the run ends in a failure; with a scan that yields at least one
    file, the run ends with [files_found] of that list and a success.  When
    the loop is left by [return] (deadline, fatal line) the run has ended
    in a failure without a scan; while [readline()] does not return there
    is no scan either. *)
Theorem scan_condition
    (magnet_link : string) (env : environment)
    (Hprefix : startswith magnet_link "magnet:?" = true)
    (Hprobe : aria2_probe env = ProbeExit 0) :
  match run_loop env with
  | LoopBreak l st p =>
      let returncode := snd (communicate p (grace_exit env)) in
      (scanned magnet_link env <-> returncode = 0%Z \/ download_started st = true)
      /\ (download_started st = true <-> started_in l)
      /\ (~ scanned magnet_link env -> ends_in_failure (run magnet_link env))
      /\ (scanned magnet_link env ->
          forall f fs,
            scan_for_music_files (download_subdir_of env) (downloaded env) = f :: fs ->
            exists pre,
              log (run magnet_link env)
              = pre ++ [files_found (f :: fs);
                        download_finished true (msg_success (List.length (f :: fs)))])
  | LoopReturn _ _ _ =>
      ~ scanned magnet_link env /\ ends_in_failure (run magnet_link env)
  | LoopBlocked _ _ _ =>
      ~ scanned magnet_link env /\ blocked (run magnet_link env) = true
  end.
Proof.
  unfold scanned, ends_in_failure.
  destruct (run_loop env) as [l st p | l st p | l st p] eqn:E.
  - rewrite (run_break _ _ _ _ _ Hprefix Hprobe E). cbn [log].
    set (d := download_subdir_of env).
    set (t := downloaded env).
    set (c := communicate p (grace_exit env)).
    assert (Hw : In (os_walk d) (spawn_log magnet_link env probe_ok_log ++ l ++ fst c
                                   ++ finish d t st (snd c))
                 <-> In (os_walk d) (finish d t st (snd c))).
    { rewrite !in_app_iff.
      pose proof (spawn_log_no_walk magnet_link env d).
      pose proof (communicate_no_walk p (grace_exit env) d).
      pose proof (read_loop_no_walk (start_time env) (output_trace env) d
                    initial_state Running) as Hl.
      fold (run_loop env) in Hl. rewrite E in Hl. simpl in Hl. fold c in H0. tauto. }
    rewrite Hw. split; [apply finish_walk|]. split; [|split].
    + pose proof (read_loop_started (start_time env) (output_trace env)
                    initial_state Running) as Hs.
      fold (run_loop env) in Hs. rewrite E in Hs. simpl in Hs.
      rewrite Hs. intuition discriminate.
    + intros Hn. destruct (finish_failure _ _ _ _ Hn) as [msg ->].
      exists (spawn_log magnet_link env probe_ok_log ++ l ++ fst c), msg.
      rewrite <- !app_assoc. reflexivity.
    + intros Hy f fs Hscan. rewrite (finish_success _ _ _ _ _ _ Hy Hscan).
      exists (spawn_log magnet_link env probe_ok_log ++ l ++ fst c
              ++ [progress_update msg_scanning; os_walk d]).
      rewrite <- !app_assoc. reflexivity.
  - rewrite (run_return _ _ _ _ _ Hprefix Hprobe E). cbn [log].
    pose proof (read_loop_no_walk (start_time env) (output_trace env)
                  (download_subdir_of env) initial_state Running) as Hl.
    fold (run_loop env) in Hl. rewrite E in Hl. simpl in Hl.
    split.
    + rewrite in_app_iff.
      pose proof (spawn_log_no_walk magnet_link env (download_subdir_of env)). tauto.
    + unfold run_loop in E. apply read_loop_return in E as (pre & msg & ->).
      exists (spawn_log magnet_link env probe_ok_log ++ pre), msg.
      rewrite <- app_assoc. reflexivity.
  - rewrite (run_blocked _ _ _ _ _ Hprefix Hprobe E). cbn [log blocked].
    pose proof (read_loop_no_walk (start_time env) (output_trace env)
                  (download_subdir_of env) initial_state Running) as Hl.
    fold (run_loop env) in Hl. rewrite E in Hl. simpl in Hl.
    split; [|reflexivity].
    rewrite in_app_iff.
    pose proof (spawn_log_no_walk magnet_link env (download_subdir_of env)). tauto.
Qed.

Example run_progress_then_exit_1 :
  run a_magnet_link env_progress_then_exit_1
  = mkResult
      (spawn_log a_magnet_link env_progress_then_exit_1 probe_ok_log
       ++ [progress_update "Download in progress...";
           progress_update "Downloading... 50%";
           progress_update "Scanning downloaded files...";
           os_walk "music_downloads/torrent_5d41402a";
           os_walk "music_downloads/torrent_5d41402a";
           download_finished false
             "No files were downloaded. The torrent might be empty or have no active seeders."])
      (Some (Exited 1)) false.
Proof. reflexivity. Qed.

Lemma scan_condition_witness :
  startswith a_magnet_link "magnet:?" = true
  /\ aria2_probe env_progress_then_exit_1 = ProbeExit 0
  /\ scanned a_magnet_link env_progress_then_exit_1.
Proof.
  split; [reflexivity|]. split; [reflexivity|].
  pose proof (scan_condition a_magnet_link env_progress_then_exit_1 eq_refl eq_refl) as H.
  hnf in H. destruct H as [H _]. apply H. right. reflexivity.
Defined.

(** C5 as stated fails: here the process exits with return code 1 and no
    line was taken by the completion branch, and yet the directory is
    scanned, because a progress line had set [download_started]. *)
Lemma scan_condition_counterexample :
  scanned a_magnet_link env_progress_then_exit_1
  /\ process (run a_magnet_link env_progress_then_exit_1) = Some (Exited 1)
  /\ ~ In (progress_update msg_completed)
         (log (run a_magnet_link env_progress_then_exit_1)).
Proof.
  unfold scanned. rewrite run_progress_then_exit_1. cbn [log process].
  split; [|split].
  - apply in_app_iff. right. simpl. tauto.
  - reflexivity.
  - rewrite in_app_iff. unfold spawn_log, probe_ok_log. simpl. intuition discriminate.
Qed.

(* ------------------------------------------------------------------ *)
(** ** The process at the end of a run *)

(** C1, at a fatal line.  The run emits the failure "Download error: ..."
    and returns; [terminate] and [kill] were never called, and the process
    is still running. *)
Theorem fatal_line_leaves_process_running :
  run a_magnet_link env_fatal_line
  = mkResult
      (spawn_log a_magnet_link env_fatal_line probe_ok_log
       ++ [download_finished false "Download error: ERROR: disk full"])
      (Some Running) false
  /\ ~ In terminate (log (run a_magnet_link env_fatal_line))
  /\ ~ In kill (log (run a_magnet_link env_fatal_line)).
Proof.
  assert (E : run a_magnet_link env_fatal_line
              = mkResult
                  (spawn_log a_magnet_link env_fatal_line probe_ok_log
                   ++ [download_finished false "Download error: ERROR: disk full"])
                  (Some Running) false) by reflexivity.
  rewrite E. cbn [log]. split; [reflexivity|].
  unfold spawn_log, probe_ok_log. simpl. split; intuition discriminate.
Qed.

(** C4, at a silent process.  The check of the deadline is made once,
    before the read; the read then never returns, so nothing is emitted
    and the process is neither terminated nor killed, however long it
    stays silent.  When the silent process exits on its own, however late,
    the run reports "Failed to connect to any peers", again without the
    timeout failure and without [terminate]. *)
Theorem silent_process_blocks_the_loop :
  (run a_magnet_link env_silent
   = mkResult (spawn_log a_magnet_link env_silent probe_ok_log) (Some Running) true
   /\ (forall ok msg, ~ In (download_finished ok msg) (log (run a_magnet_link env_silent)))
   /\ ~ In terminate (log (run a_magnet_link env_silent)))
  /\ (run a_magnet_link env_silent_then_exit
      = mkResult
          (spawn_log a_magnet_link env_silent_then_exit probe_ok_log
           ++ [download_finished false msg_no_peers])
          (Some (Exited 1)) false
      /\ ~ In (download_finished false msg_timeout)
             (log (run a_magnet_link env_silent_then_exit))
      /\ ~ In terminate (log (run a_magnet_link env_silent_then_exit))).
Proof.
  split.
  - assert (E : run a_magnet_link env_silent
                = mkResult (spawn_log a_magnet_link env_silent probe_ok_log)
                           (Some Running) true) by reflexivity.
    rewrite E. cbn [log]. split; [reflexivity|].
    unfold spawn_log, probe_ok_log. simpl.
    split; [intros ok msg|]; intuition discriminate.
  - assert (E : run a_magnet_link env_silent_then_exit
                = mkResult
                    (spawn_log a_magnet_link env_silent_then_exit probe_ok_log
                     ++ [download_finished false msg_no_peers])
                    (Some (Exited 1)) false) by reflexivity.
    rewrite E. cbn [log]. split; [reflexivity|].
    unfold spawn_log, probe_ok_log. simpl.
    split; intuition discriminate.
Qed.

(** With a read that returns, the same silence is caught at the next pass:
    the deadline works whenever the loop gets back to its check. *)
Example late_line_triggers_timeout :
  run a_magnet_link
      (mkEnv (ProbeExit 0) a_digest 0
             (Read 0 ("[NOTICE] waiting" ++ newline) None (Silent (61 # 1)))
             None (Dir [] []))
  = mkResult
      (spawn_log a_magnet_link env_silent probe_ok_log
       ++ [terminate; download_finished false msg_timeout])
      (Some Terminating) false.
Proof. reflexivity. Qed.

(** [stop_download] on a running process ends with the process exited or
    killed; on a process that has exited, or before the spawn, it does
    nothing. *)
Example stop_download_running :
  stop_download (Some Running) (Some (-15)%Z) = ([terminate], Some (Exited (-15)))
  /\ stop_download (Some Running) None = ([terminate; kill], Some Killed)
  /\ stop_download (Some (Exited 0)) None = ([], Some (Exited 0))
  /\ stop_download None None = ([], None).
Proof. repeat split. Qed.

(* ------------------------------------------------------------------ *)
(** ** Further properties of the worker *)

Lemma filter_none {A} (f : A -> bool) (l : list A) :
  (forall a, In a l -> f a = false) -> filter f l = [].
Proof.
  induction l as [|a l IH]; intros H; simpl; [reflexivity|].
  rewrite (H a (or_introl eq_refl)). apply IH. intros b Hb. apply H. right. exact Hb.
Qed.

Lemma filter_nil_in {A} (f : A -> bool) (l : list A) a :
  filter f l = [] -> In a l -> f a = false.
Proof.
  intros Hf Hin. destruct (f a) eqn:E; [|reflexivity].
  assert (Hx : In a (filter f l)) by (apply filter_In; auto).
  rewrite Hf in Hx. destruct Hx.
Qed.

Lemma prepend_nil e : prepend [] e = e.
Proof. destruct e; reflexivity. Qed.

(** Every action of the loop is a progress message, a failure or
    [terminate]. *)
Lemma read_loop_kinds start tr :
  forall st p a, In a (exit_log (read_loop start tr st p)) -> loop_action a.
Proof.
  induction tr as [now | now output poll rest IH]; intros st p a; simpl.
  - destruct (timeout_check _ _); simpl; [|tauto].
    intros [<-|[<-|[]]]; exact I.
  - destruct (timeout_check _ _); [simpl; intros [<-|[<-|[]]]; exact I|].
    destruct (String.eqb output "").
    { destruct poll; [simpl; tauto | apply IH]. }
    pose proof (process_output_log st output) as Hl.
    destruct (process_output st output) as [[lo so] ctl].
    unfold ctl_of, log_of in Hl; simpl in Hl.
    assert (Hk : In a lo -> loop_action a).
    { intros Hin. destruct (Hl _ Hin) as [[m ->]|[-> _]]; exact I. }
    destruct ctl; simpl; auto.
    rewrite exit_log_prepend, in_app_iff. intros [H|H]; [auto | eapply IH; eauto].
Qed.

(** Failures apart, the loop adds no outcome; by [return] it adds one, as
    its last action. *)
Lemma read_loop_outcomes start tr :
  forall st p,
    match read_loop start tr st p with
    | LoopReturn l _ _ =>
        exists pre msg, l = pre ++ [download_finished false msg] /\ filter is_outcome pre = []
    | LoopBreak l _ _ | LoopBlocked l _ _ => filter is_outcome l = []
    end.
Proof.
  induction tr as [now | now output poll rest IH]; intros st p; simpl.
  - destruct (timeout_check _ _); [|reflexivity].
    exists [terminate], msg_timeout. split; reflexivity.
  - destruct (timeout_check _ _).
    { exists [terminate], msg_timeout. split; reflexivity. }
    destruct (String.eqb output "").
    { destruct poll; [reflexivity | apply IH]. }
    pose proof (process_output_log st output) as Hl.
    pose proof (process_output_unfold st output) as Hu.
    pose proof (chain_step_return (snd (peer_step st (strip output))) (strip output)) as Hr.
    assert (Hp : filter is_outcome (fst (peer_step st (strip output))) = []).
    { apply filter_none. intros a Ha. apply peer_step_log in Ha. subst a. reflexivity. }
    destruct (process_output st output) as [[lo so] ctl].
    injection Hu as Hlo Hso Hctl.
    unfold ctl_of, log_of in Hl; simpl in Hl.
    assert (Hnone : ctl <> Return -> filter is_outcome lo = []).
    { intros Hne. apply filter_none. intros a Ha.
      destruct (Hl _ Ha) as [[m ->]|[_ Hc]]; [reflexivity | contradiction]. }
    destruct ctl.
    + specialize (IH so (status_of_poll poll)).
      destruct (read_loop start rest so (status_of_poll poll)); simpl.
      * rewrite filter_app, Hnone, IH by discriminate. reflexivity.
      * destruct IH as (pre & msg & -> & Hpre).
        exists (lo ++ pre), msg. rewrite app_assoc. split; [reflexivity|].
        rewrite filter_app, Hnone, Hpre by discriminate. reflexivity.
      * rewrite filter_app, Hnone, IH by discriminate. reflexivity.
    + apply Hnone. discriminate.
    + exists (fst (peer_step st (strip output))), (msg_error (strip output)).
      split; [|exact Hp]. rewrite Hlo, Hr by (symmetry; exact Hctl). reflexivity.
Qed.

Lemma finish_outcome d t st returncode :
  exists pre ok msg,
    finish d t st returncode = pre ++ [download_finished ok msg]
    /\ filter is_outcome pre = []
    /\ ~ In terminate pre /\ ~ In kill pre.
Proof.
  unfold finish.
  destruct ((returncode =? 0)%Z || download_started st).
  - destruct (scan_for_music_files d t) as [|f fs].
    + destruct (all_files d t) as [|o os].
      * exists [progress_update msg_scanning; os_walk d; os_walk d], false, msg_nothing.
        simpl. intuition discriminate.
      * exists [progress_update msg_scanning; os_walk d; os_walk d], false,
          (msg_other_types (List.length (o :: os))).
        simpl. intuition discriminate.
    + exists [progress_update msg_scanning; os_walk d; files_found (f :: fs)], true,
        (msg_success (List.length (f :: fs))).
      simpl. intuition discriminate.
  - destruct (negb (connection_established st)).
    + exists [], false, msg_no_peers. simpl. tauto.
    + exists [], false, (msg_failed "Unknown download error"). simpl. tauto.
Qed.

Lemma communicate_log p grace :
  fst (communicate p grace) = [] \/ fst (communicate p grace) = [kill].
Proof. destruct p; try destruct grace; simpl; auto. Qed.

Lemma spawn_log_outcomes magnet_link env :
  filter is_outcome (spawn_log magnet_link env probe_ok_log) = [].
Proof. reflexivity. Qed.

(** The outcomes of a run, counted. *)
Lemma run_outcomes (magnet_link : string) (env : environment) :
  if blocked (run magnet_link env)
  then filter is_outcome (log (run magnet_link env)) = []
  else exists pre ok msg,
      log (run magnet_link env) = pre ++ [download_finished ok msg]
      /\ filter is_outcome pre = [].
Proof.
  destruct (startswith magnet_link "magnet:?") eqn:Hm.
  2:{ unfold run. rewrite Hm. exists [], false, msg_invalid. split; reflexivity. }
  assert (Hfail : forall m,
             run magnet_link env
             = mkResult [progress_update "Validating magnet link..."; sleep 1;
                         download_finished false m] None false ->
             if blocked (run magnet_link env)
             then filter is_outcome (log (run magnet_link env)) = []
             else exists pre ok msg,
                 log (run magnet_link env) = pre ++ [download_finished ok msg]
                 /\ filter is_outcome pre = []).
  { intros m ->. exists [progress_update "Validating magnet link..."; sleep 1], false, m.
    split; reflexivity. }
  destruct (aria2_probe env) as [returncode| |] eqn:Hp.
  2:{ eapply Hfail. unfold run. rewrite Hm, Hp. reflexivity. }
  2:{ eapply Hfail. unfold run. rewrite Hm, Hp. reflexivity. }
  destruct (returncode =? 0)%Z eqn:Hz.
  2:{ eapply Hfail. unfold run. rewrite Hm, Hp. simpl. rewrite Hz. reflexivity. }
  apply Z.eqb_eq in Hz. subst returncode.
  pose proof (read_loop_outcomes (start_time env) (output_trace env)
                initial_state Running) as Hl.
  fold (run_loop env) in Hl.
  destruct (run_loop env) as [l st p | l st p | l st p] eqn:E.
  - rewrite (run_break _ _ _ _ _ Hm Hp E). cbn [blocked log].
    destruct (finish_outcome (download_subdir_of env) (downloaded env) st
                (snd (communicate p (grace_exit env))))
      as (pre & ok & msg & -> & Hpre & _).
    exists (spawn_log magnet_link env probe_ok_log ++ l
            ++ fst (communicate p (grace_exit env)) ++ pre), ok, msg.
    split; [rewrite <- !app_assoc; reflexivity|].
    rewrite !filter_app, Hl, Hpre, spawn_log_outcomes.
    destruct (communicate_log p (grace_exit env)) as [-> | ->]; reflexivity.
  - rewrite (run_return _ _ _ _ _ Hm Hp E). cbn [blocked log].
    destruct Hl as (pre & msg & -> & Hpre).
    exists (spawn_log magnet_link env probe_ok_log ++ pre), false, msg.
    split; [rewrite <- !app_assoc; reflexivity|].
    rewrite !filter_app, Hpre, spawn_log_outcomes. reflexivity.
  - rewrite (run_blocked _ _ _ _ _ Hm Hp E). cbn [blocked log].
    rewrite !filter_app, Hl, spawn_log_outcomes. reflexivity.
Qed.

(** X1.  A run that comes to an end emits exactly one
    [download_finished], and as its last action; a run stuck in
    [readline()] has emitted none. *)
Theorem exactly_one_outcome (magnet_link : string) (env : environment) :
  if blocked (run magnet_link env)
  then filter is_outcome (log (run magnet_link env)) = []
  else exists pre ok msg,
      log (run magnet_link env) = pre ++ [download_finished ok msg]
      /\ filter is_outcome pre = [].
Proof.
  pose proof (run_outcomes magnet_link env) as H.
  destruct (blocked (run magnet_link env)); exact H.
Qed.

(** X2.  With a well-formed magnet link and a version query that does
    not end with return code 0 (non-zero exit, missing binary, or timeout),
    the run is the validation message, the one-second sleep and one of the
    three probe failures; no process is spawned. *)
Theorem tool_unavailable
    (magnet_link : string) (env : environment)
    (Hprefix : startswith magnet_link "magnet:?" = true)
    (Hprobe : aria2_probe env <> ProbeExit 0) :
  exists msg,
    In msg probe_failures
    /\ run magnet_link env
       = mkResult [progress_update "Validating magnet link..."; sleep 1;
                   download_finished false msg] None false.
Proof.
  unfold run. rewrite Hprefix. simpl.
  destruct (aria2_probe env) as [returncode| |]; simpl.
  - destruct (returncode =? 0)%Z eqn:Hz.
    + apply Z.eqb_eq in Hz. subst. contradiction.
    + eexists. split; [|reflexivity]. simpl. tauto.
  - eexists. split; [|reflexivity]. simpl. tauto.
  - eexists. split; [|reflexivity]. simpl. tauto.
Qed.

Lemma tool_unavailable_witness :
  startswith a_magnet_link "magnet:?" = true
  /\ aria2_probe (mkEnv ProbeNotFound a_digest 0 (Silent 0) None (Dir [] [])) <> ProbeExit 0
  /\ exists msg,
      In msg probe_failures
      /\ run a_magnet_link (mkEnv ProbeNotFound a_digest 0 (Silent 0) None (Dir [] []))
         = mkResult [progress_update "Validating magnet link..."; sleep 1;
                     download_finished false msg] None false.
Proof.
  assert (H : aria2_probe (mkEnv ProbeNotFound a_digest 0 (Silent 0) None (Dir [] []))
              <> ProbeExit 0) by (simpl; discriminate).
  split; [reflexivity|]. split; [exact H|].
  exact (tool_unavailable a_magnet_link
           (mkEnv ProbeNotFound a_digest 0 (Silent 0) None (Dir [] [])) eq_refl H).
Defined.

Lemma read_loop_no_spawn start tr st p :
  filter is_spawn (exit_log (read_loop start tr st p)) = [].
Proof.
  apply filter_none. intros a Ha. apply read_loop_kinds in Ha.
  destruct a; try reflexivity. destruct Ha.
Qed.

Lemma finish_no_spawn d t st returncode : filter is_spawn (finish d t st returncode) = [].
Proof.
  unfold finish.
  destruct ((returncode =? 0)%Z || download_started st).
  - destruct (scan_for_music_files d t); [destruct (all_files d t)|]; reflexivity.
  - destruct (negb (connection_established st)); reflexivity.
Qed.

(** X3.  A run spawns at most one process: exactly one, with the fixed
    aria2c command line for the magnet link and the download
    subdirectory, when the link is well-formed and the version query
    exits with 0; none otherwise. *)
Theorem spawned_at_most_once (magnet_link : string) (env : environment) :
  filter is_spawn (log (run magnet_link env))
  = if startswith magnet_link "magnet:?" && available env
    then [Popen (aria2c_cmd magnet_link (download_subdir_of env))]
    else [].
Proof.
  unfold available.
  destruct (startswith magnet_link "magnet:?") eqn:Hm.
  2:{ unfold run. rewrite Hm. reflexivity. }
  destruct (aria2_probe env) as [returncode| |] eqn:Hp.
  2:{ unfold run. rewrite Hm, Hp. reflexivity. }
  2:{ unfold run. rewrite Hm, Hp. reflexivity. }
  destruct (returncode =? 0)%Z eqn:Hz.
  2:{ unfold run. rewrite Hm, Hp. simpl. rewrite Hz. reflexivity. }
  apply Z.eqb_eq in Hz. subst returncode. simpl.
  pose proof (read_loop_no_spawn (start_time env) (output_trace env)
                initial_state Running) as Hl.
  fold (run_loop env) in Hl.
  destruct (run_loop env) as [l st p | l st p | l st p] eqn:E; simpl in Hl.
  - rewrite (run_break _ _ _ _ _ Hm Hp E). cbn [log].
    rewrite !filter_app, Hl, finish_no_spawn.
    destruct (communicate_log p (grace_exit env)) as [-> | ->]; reflexivity.
  - rewrite (run_return _ _ _ _ _ Hm Hp E). cbn [log].
    rewrite !filter_app, Hl. reflexivity.
  - rewrite (run_blocked _ _ _ _ _ Hm Hp E). cbn [log].
    rewrite !filter_app, Hl. reflexivity.
Qed.

Lemma finish_success_inv d t st returncode msg :
  In (download_finished true msg) (finish d t st returncode) ->
  exists f fs,
    scan_for_music_files d t = f :: fs
    /\ In (files_found (f :: fs)) (finish d t st returncode)
    /\ msg = msg_success (List.length (f :: fs)).
Proof.
  unfold finish.
  destruct ((returncode =? 0)%Z || download_started st).
  - destruct (scan_for_music_files d t) as [|f fs].
    + destruct (all_files d t); simpl; intuition discriminate.
    + simpl. intros [H|[H|[H|[H|[]]]]]; try discriminate.
      injection H as <-. exists f, fs. repeat split. right. right. left. reflexivity.
  - destruct (negb (connection_established st)); simpl; intuition discriminate.
Qed.

(** X4.  A success is only ever reported after a scan that found
    something: the process has been reaped, [files_found] carried the
    non-empty result of the scan, every path in it is that of a file
    with a music extension and a size above 1024, and the message counts
    those paths. *)
Theorem success_means_files
    (magnet_link : string) (env : environment) (msg : string)
    (Hsuccess : In (download_finished true msg) (log (run magnet_link env))) :
  exists f fs returncode,
    scan_for_music_files (download_subdir_of env) (downloaded env) = f :: fs
    /\ In (files_found (f :: fs)) (log (run magnet_link env))
    /\ msg = msg_success (List.length (f :: fs))
    /\ process (run magnet_link env) = Some (Exited returncode)
    /\ blocked (run magnet_link env) = false
    /\ forall path, In path (f :: fs) ->
         qualifying_path (download_subdir_of env) (downloaded env) path.
Proof.
  revert Hsuccess.
  destruct (startswith magnet_link "magnet:?") eqn:Hm.
  2:{ unfold run. rewrite Hm. simpl. intuition discriminate. }
  destruct (aria2_probe env) as [returncode| |] eqn:Hp.
  2:{ unfold run. rewrite Hm, Hp. simpl. intuition discriminate. }
  2:{ unfold run. rewrite Hm, Hp. simpl. intuition discriminate. }
  destruct (returncode =? 0)%Z eqn:Hz.
  2:{ unfold run. rewrite Hm, Hp. simpl. rewrite Hz. simpl. intuition discriminate. }
  apply Z.eqb_eq in Hz. subst returncode.
  pose proof (read_loop_kinds (start_time env) (output_trace env)
                initial_state Running) as Hl.
  fold (run_loop env) in Hl.
  assert (Hs : ~ In (download_finished true msg) (spawn_log magnet_link env probe_ok_log)).
  { unfold spawn_log, probe_ok_log. simpl. intuition discriminate. }
  destruct (run_loop env) as [l st p | l st p | l st p] eqn:E; simpl in Hl.
  - rewrite (run_break _ _ _ _ _ Hm Hp E). cbn [log process blocked].
    rewrite !in_app_iff. intros [H|[H|[H|H]]].
    + contradiction.
    + destruct (Hl _ H).
    + destruct (communicate_log p (grace_exit env)) as [Hc|Hc]; rewrite Hc in H;
        simpl in H; intuition discriminate.
    + apply finish_success_inv in H as (f & fs & Hscan & Hin & ->).
      exists f, fs, (snd (communicate p (grace_exit env))).
      split; [exact Hscan|]. split; [rewrite !in_app_iff; tauto|].
      split; [reflexivity|]. split; [reflexivity|]. split; [reflexivity|].
      intros path Hpath. apply scan_sound. rewrite Hscan. exact Hpath.
  - rewrite (run_return _ _ _ _ _ Hm Hp E). cbn [log].
    rewrite in_app_iff. intros [H|H]; [contradiction | destruct (Hl _ H)].
  - rewrite (run_blocked _ _ _ _ _ Hm Hp E). cbn [log].
    rewrite in_app_iff. intros [H|H]; [contradiction | destruct (Hl _ H)].
Qed.

Lemma success_means_files_witness :
  In (download_finished true "Successfully downloaded 1 music file(s)!")
     (log (run a_magnet_link env_one_track))
  /\ In (files_found ["music_downloads/torrent_5d41402a/cd1/01 Intro.FLAC"])
        (log (run a_magnet_link env_one_track)).
Proof.
  assert (H : In (download_finished true "Successfully downloaded 1 music file(s)!")
                (log (run a_magnet_link env_one_track))).
  { vm_compute. do 10 right. left. reflexivity. }
  split; [exact H|].
  destruct (success_means_files a_magnet_link env_one_track _ H)
    as (f & fs & rc & Hscan & Hin & _).
  vm_compute in Hscan. injection Hscan as <- <-. exact Hin.
Defined.

Lemma read_loop_terminate start tr :
  forall st p,
    In terminate (exit_log (read_loop start tr st p))
    <-> In (download_finished false msg_timeout) (exit_log (read_loop start tr st p)).
Proof.
  induction tr as [now | now output poll rest IH]; intros st p; simpl.
  - destruct (timeout_check _ _); simpl; intuition discriminate.
  - destruct (timeout_check _ _); [simpl; intuition discriminate|].
    destruct (String.eqb output "").
    { destruct poll; [simpl; tauto | apply IH]. }
    pose proof (process_output_log st output) as Hl.
    destruct (process_output st output) as [[lo so] ctl].
    unfold ctl_of, log_of in Hl; simpl in Hl.
    assert (Hnt : ~ In terminate lo).
    { intros Hin. destruct (Hl _ Hin) as [[m Hm]|[Hm _]]; discriminate. }
    assert (Hnf : ~ In (download_finished false msg_timeout) lo).
    { intros Hin. destruct (Hl _ Hin) as [[m Hm]|[Hm _]]; [discriminate|].
      apply (msg_error_not_timeout (strip output)). congruence. }
    destruct ctl; simpl; try tauto.
    rewrite exit_log_prepend, !in_app_iff.
    specialize (IH so (status_of_poll poll)). tauto.
Qed.

Lemma finish_no_timeout d t st returncode :
  ~ In terminate (finish d t st returncode)
  /\ ~ In (download_finished false msg_timeout) (finish d t st returncode).
Proof.
  unfold finish.
  destruct ((returncode =? 0)%Z || download_started st).
  - destruct (scan_for_music_files d t) as [|f fs].
    + destruct (all_files d t) as [|o os]; simpl.
      * split; intuition discriminate.
      * split; [intuition discriminate|].
        intros [H|[H|[H|[H|[]]]]]; discriminate.
    + simpl. split; intuition discriminate.
  - destruct (negb (connection_established st)); simpl; split; intuition discriminate.
Qed.

(** X5.  [terminate] is called in a run exactly when the run reports the
    connection timeout: no other path signals the process, and the
    timeout is never reported without the signal. *)
Theorem terminate_iff_timeout (magnet_link : string) (env : environment) :
  In terminate (log (run magnet_link env))
  <-> In (download_finished false msg_timeout) (log (run magnet_link env)).
Proof.
  destruct (startswith magnet_link "magnet:?") eqn:Hm.
  2:{ unfold run. rewrite Hm. simpl. intuition discriminate. }
  destruct (aria2_probe env) as [returncode| |] eqn:Hp.
  2:{ unfold run. rewrite Hm, Hp. simpl. intuition discriminate. }
  2:{ unfold run. rewrite Hm, Hp. simpl. intuition discriminate. }
  destruct (returncode =? 0)%Z eqn:Hz.
  2:{ unfold run. rewrite Hm, Hp. simpl. rewrite Hz. simpl. intuition discriminate. }
  apply Z.eqb_eq in Hz. subst returncode.
  pose proof (read_loop_terminate (start_time env) (output_trace env)
                initial_state Running) as Hl.
  fold (run_loop env) in Hl.
  assert (Hs : ~ In terminate (spawn_log magnet_link env probe_ok_log)
               /\ ~ In (download_finished false msg_timeout)
                      (spawn_log magnet_link env probe_ok_log)).
  { unfold spawn_log, probe_ok_log. simpl. split; intuition discriminate. }
  destruct (run_loop env) as [l st p | l st p | l st p] eqn:E; simpl in Hl.
  - rewrite (run_break _ _ _ _ _ Hm Hp E). cbn [log]. rewrite !in_app_iff.
    pose proof (finish_no_timeout (download_subdir_of env) (downloaded env) st
                  (snd (communicate p (grace_exit env)))).
    assert (Hc : ~ In terminate (fst (communicate p (grace_exit env)))
                 /\ ~ In (download_finished false msg_timeout)
                        (fst (communicate p (grace_exit env)))).
    { destruct (communicate_log p (grace_exit env)) as [-> | ->]; simpl;
        split; intuition discriminate. }
    tauto.
  - rewrite (run_return _ _ _ _ _ Hm Hp E). cbn [log]. rewrite !in_app_iff. tauto.
  - rewrite (run_blocked _ _ _ _ _ Hm Hp E). cbn [log]. rewrite !in_app_iff. tauto.
Qed.

(** X6.  An output line of white space only (an empty line of the
    process, say) is ignored: nothing is emitted, the flags keep their
    values, and the loop goes on to the next read as if the line had not
    been there. *)
Theorem blank_line_ignored
    (st : loop_state) (output : string)
    (start now : Q) (poll : option Z) (rest : trace) (p : proc_status)
    (Hnonempty : output <> "")
    (Hblank : strip output = "")
    (Hintime : timeout_check (connection_established st) (now - start) = false) :
  process_output st output = ([], st, Continue)
  /\ read_loop start (Read now output poll rest) st p
     = read_loop start rest st (status_of_poll poll).
Proof.
  assert (E : process_output st output = ([], st, Continue)).
  { unfold process_output. rewrite Hblank. reflexivity. }
  split; [exact E|].
  simpl. rewrite Hintime, E.
  destruct (String.eqb output "") eqn:Ho.
  - apply String.eqb_eq in Ho. contradiction.
  - apply prepend_nil.
Qed.

Lemma blank_line_ignored_witness :
  newline <> ""
  /\ strip newline = ""
  /\ timeout_check (connection_established initial_state) ((1 # 1) - 0) = false
  /\ read_loop 0 (Read (1 # 1) newline None (Silent (2 # 1))) initial_state Running
     = read_loop 0 (Silent (2 # 1)) initial_state (status_of_poll None).
Proof.
  assert (H : newline <> "") by discriminate.
  split; [exact H|]. split; [reflexivity|]. split; [reflexivity|].
  exact (proj2 (blank_line_ignored initial_state newline 0 (1 # 1) None
                  (Silent (2 # 1)) Running H eq_refl eq_refl)).
Defined.

Lemma chain_step_ctl st1 st2 line :
  ctl_of (chain_step st1 line) = ctl_of (chain_step st2 line).
Proof.
  unfold chain_step.
  destruct (is_progress line).
  { destruct (negb (download_started st1)), (negb (download_started st2)); reflexivity. }
  destruct (is_completion line); [reflexivity|].
  destruct (is_error line).
  { destruct (negb (contains "dht" (lower line)) && negb (contains "server error" (lower line)));
      reflexivity. }
  destruct (is_metadata line); reflexivity.
Qed.

(** X7.  Whether a line makes the loop go on, break or return depends on
    the line alone, not on the two flags, that is, not on the lines seen
    before it. *)
Theorem control_depends_on_line_only (st1 st2 : loop_state) (output : string) :
  ctl_of (process_output st1 output) = ctl_of (process_output st2 output).
Proof.
  rewrite !process_output_unfold. unfold ctl_of at 1 3; simpl.
  apply chain_step_ctl.
Qed.

Lemma scan_files_raises root pre file rest :
  forall music_files,
    existsb getsize_raises pre = false ->
    has_music_extension file = true ->
    scan_files root (pre ++ (file, None) :: rest) music_files
    = (music_files ++ paths_of root pre, true).
Proof.
  unfold paths_of.
  induction pre as [|[f g] pre IH]; intros acc Hpre Hext; simpl.
  - rewrite Hext, app_nil_r. reflexivity.
  - simpl in Hpre. apply orb_false_iff in Hpre as [Hf Hpre].
    unfold getsize_raises in Hf. unfold qualifies at 1. simpl in *.
    destruct (has_music_extension f); simpl in *.
    + destruct g as [size|]; [|discriminate].
      destruct (big_enough size); simpl.
      * rewrite IH by assumption. rewrite <- app_assoc. reflexivity.
      * apply IH; assumption.
    + apply IH; assumption.
Qed.

(** X8.  When [os.path.getsize] raises on a file with a music extension,
    the scan ends there: it returns the qualifying files listed before
    that file in the same directory, and neither the files after it nor
    anything in the subdirectories. *)
Theorem unreadable_file_ends_scan
    (directory : string) (pre rest : list (string * option Z)) (file : string)
    (subdirs : list (string * tree))
    (Hpre : existsb getsize_raises pre = false)
    (Hext : has_music_extension file = true) :
  scan_for_music_files directory (Dir (pre ++ (file, None) :: rest) subdirs)
  = paths_of directory pre.
Proof.
  unfold scan_for_music_files. simpl.
  rewrite (scan_files_raises directory pre file rest [] Hpre Hext). reflexivity.
Qed.

Lemma unreadable_file_ends_scan_witness :
  existsb getsize_raises [("a.mp3", Some 5000%Z)] = false
  /\ has_music_extension "b.mp3" = true
  /\ scan_for_music_files "d"
       (Dir ([("a.mp3", Some 5000%Z)] ++ ("b.mp3", None) :: [("c.mp3", Some 5000%Z)])
            [("sub", Dir [("e.flac", Some 5000%Z)] [])])
     = ["d/a.mp3"].
Proof.
  split; [reflexivity|]. split; [reflexivity|].
  exact (unreadable_file_ends_scan "d" [("a.mp3", Some 5000%Z)]
           [("c.mp3", Some 5000%Z)] "b.mp3"
           [("sub", Dir [("e.flac", Some 5000%Z)] [])] eq_refl eq_refl).
Defined.

Lemma walk_unfold directory files subdirs :
  walk directory (Dir files subdirs)
  = (directory, map fst subdirs, files)
    :: flat_map (fun nt : string * tree => walk (os_path_join directory (fst nt)) (snd nt))
         subdirs.
Proof.
  simpl. f_equal.
  induction subdirs as [|[name sub] l IH]; simpl; [reflexivity|].
  rewrite IH. reflexivity.
Qed.

Lemma flat_map_flat_map {A B C} (f : B -> list C) (g : A -> list B) (l : list A) :
  flat_map f (flat_map g l) = flat_map (fun a => flat_map f (g a)) l.
Proof.
  induction l as [|a l IH]; simpl; [reflexivity|].
  rewrite flat_map_app, IH. reflexivity.
Qed.

Lemma flat_map_ext_on {A B} (f g : A -> list B) (l : list A) :
  (forall a, In a l -> f a = g a) -> flat_map f l = flat_map g l.
Proof.
  induction l as [|a l IH]; intros H; simpl; [reflexivity|].
  rewrite (H a (or_introl eq_refl)), IH; [reflexivity|].
  intros b Hb. apply H. right. exact Hb.
Qed.

Lemma scan_as_flat_map directory t :
  getsize_never_raises directory t ->
  scan_for_music_files directory t = flat_map entry_paths (walk directory t).
Proof.
  intros H. unfold scan_for_music_files. rewrite scan_entries_spec by exact H. reflexivity.
Qed.

(** X9.  As long as no [getsize] raises, the scan of a directory is the
    qualifying files of the directory itself, in listing order, followed
    by the scans of its subdirectories, each under its own path and in
    listing order. *)
Theorem scan_descends
    (directory : string) (files : list (string * option Z))
    (subdirs : list (string * tree))
    (Hreadable : getsize_never_raises directory (Dir files subdirs)) :
  scan_for_music_files directory (Dir files subdirs)
  = paths_of directory files ++ scan_subdirs directory subdirs.
Proof.
  rewrite (scan_as_flat_map _ _ Hreadable), walk_unfold. simpl.
  unfold entry_paths at 1; simpl. f_equal.
  rewrite flat_map_flat_map. unfold scan_subdirs.
  apply flat_map_ext_on. intros [name sub] Hin. simpl.
  symmetry. apply scan_as_flat_map.
  intros e He. apply Hreadable. rewrite walk_unfold. right.
  apply in_flat_map. exists (name, sub). split; [exact Hin | exact He].
Qed.

Lemma scan_descends_witness :
  getsize_never_raises "d"
    (Dir [("a.mp3", Some 5000%Z)] [("x", Dir [("b.ogg", Some 3000%Z)] []);
                                    ("y", Dir [("c.wav", Some 1%Z)] [])])
  /\ scan_for_music_files "d"
       (Dir [("a.mp3", Some 5000%Z)] [("x", Dir [("b.ogg", Some 3000%Z)] []);
                                       ("y", Dir [("c.wav", Some 1%Z)] [])])
     = ["d/a.mp3"] ++ ["d/x/b.ogg"].
Proof.
  assert (H : getsize_never_raises "d"
                (Dir [("a.mp3", Some 5000%Z)] [("x", Dir [("b.ogg", Some 3000%Z)] []);
                                                ("y", Dir [("c.wav", Some 1%Z)] [])])).
  { intros e [<-|[<-|[<-|[]]]]; reflexivity. }
  split; [exact H|].
  exact (scan_descends "d" _ _ H).
Defined.

Lemma all_files_nil_scan d t : all_files d t = [] -> scan_for_music_files d t = [].
Proof.
  intros Hall.
  destruct (scan_for_music_files d t) as [|path l] eqn:E; [reflexivity|].
  assert (Hq : qualifying_path d t path) by (apply scan_sound; rewrite E; left; reflexivity).
  destruct Hq as (root & dirs & files & file & size & He & Hf & _).
  assert (Hin : In file (all_files d t)).
  { unfold all_files. apply in_flat_map. exists (root, dirs, files). split; [exact He|].
    simpl. apply in_map_iff. exists (file, Some size). auto. }
  rewrite Hall in Hin. destruct Hin.
Qed.

(** X10.  After the loop, the failure "No files were downloaded" is
    emitted exactly when the directory is scanned (return code 0 or
    [download_started]) and the walk finds no file at all below it,
    whatever its subdirectories. *)
Theorem nothing_downloaded_iff
    (d : string) (t : tree) (st : loop_state) (returncode : Z) :
  In (download_finished false msg_nothing) (finish d t st returncode)
  <-> (returncode = 0%Z \/ download_started st = true) /\ all_files d t = [].
Proof.
  rewrite <- Z.eqb_eq, <- orb_true_iff. unfold finish.
  destruct ((returncode =? 0)%Z || download_started st).
  - destruct (all_files d t) as [|o os] eqn:Hall.
    + rewrite (all_files_nil_scan _ _ Hall). simpl. tauto.
    + destruct (scan_for_music_files d t) as [|f fs]; simpl.
      * split; [|intros [_ H]; discriminate].
        intros [H|[H|[H|[H|[]]]]]; discriminate.
      * split; [|intros [_ H]; discriminate]. intuition discriminate.
  - destruct (negb (connection_established st)); simpl.
    + split; [|intros [H _]; discriminate]. intuition discriminate.
    + split; [|intros [H _]; discriminate]. intuition discriminate.
Qed.

(** X11.  After a run that left the loop by [break], or that never
    spawned, the process has exited (or there is none) and
    [stop_download] does nothing: no signal is sent. *)
Theorem stop_after_finished_run
    (magnet_link : string) (env : environment) (wait_exit : option Z)
    (Hended : startswith magnet_link "magnet:?" = false
              \/ available env = false
              \/ exists l st p, run_loop env = LoopBreak l st p) :
  stop_download (process (run magnet_link env)) wait_exit
  = ([], process (run magnet_link env)).
Proof.
  unfold available in Hended.
  destruct (startswith magnet_link "magnet:?") eqn:Hm.
  2:{ unfold run. rewrite Hm. reflexivity. }
  destruct (aria2_probe env) as [returncode| |] eqn:Hp.
  2:{ unfold run. rewrite Hm, Hp. reflexivity. }
  2:{ unfold run. rewrite Hm, Hp. reflexivity. }
  destruct (returncode =? 0)%Z eqn:Hz.
  2:{ unfold run. rewrite Hm, Hp. simpl. rewrite Hz. reflexivity. }
  apply Z.eqb_eq in Hz. subst returncode.
  destruct Hended as [H|[H|(l & st & p & E)]]; try discriminate.
  rewrite (run_break _ _ _ _ _ Hm Hp E). reflexivity.
Qed.

Lemma stop_after_finished_run_witness :
  (exists l st p, run_loop env_one_track = LoopBreak l st p)
  /\ stop_download (process (run a_magnet_link env_one_track)) None
     = ([], Some (Exited 0)).
Proof.
  assert (H : exists l st p, run_loop env_one_track = LoopBreak l st p).
  { exists [], initial_state, (Exited 0). reflexivity. }
  split; [exact H|].
  exact (stop_after_finished_run a_magnet_link env_one_track None (or_intror (or_intror H))).
Defined.

(* ------------------------------------------------------------------ *)
(** ** The music player *)

Lemma get_duration_flags p read :
  MusicPlayer.is_playing (snd (MusicPlayer.get_duration p read)) = MusicPlayer.is_playing p
  /\ MusicPlayer.is_paused (snd (MusicPlayer.get_duration p read)) = MusicPlayer.is_paused p
  /\ MusicPlayer.current_track (snd (MusicPlayer.get_duration p read))
     = MusicPlayer.current_track p
  /\ MusicPlayer.position (snd (MusicPlayer.get_duration p read)) = MusicPlayer.position p
  /\ MusicPlayer.volume (snd (MusicPlayer.get_duration p read)) = MusicPlayer.volume p.
Proof.
  unfold MusicPlayer.get_duration.
  destruct (MusicPlayer.current_track p) as [track|] eqn:E;
    [destruct (String.eqb track "")|]; simpl; rewrite ?E; auto.
Qed.

Lemma load_track_flags p file_path f :
  MusicPlayer.is_playing (snd (MusicPlayer.load_track p file_path f))
  = MusicPlayer.is_playing p
  /\ MusicPlayer.is_paused (snd (MusicPlayer.load_track p file_path f))
     = MusicPlayer.is_paused p
  /\ (MusicPlayer.current_track p <> None ->
      MusicPlayer.current_track (snd (MusicPlayer.load_track p file_path f)) <> None).
Proof.
  unfold MusicPlayer.load_track.
  destruct (negb (MusicPlayer.path_exists f)); [simpl; auto|].
  destruct (MusicPlayer.getsize f) as [size|]; [|simpl; auto].
  destruct (size =? 0)%Z; [simpl; auto|].
  destruct (negb (MusicPlayer.mixer_loads f)); [simpl; repeat split; discriminate|].
  set (p1 := MusicPlayer.mkPlayer (Some file_path) (MusicPlayer.is_playing p)
               (MusicPlayer.is_paused p) (MusicPlayer.position p)
               (MusicPlayer.duration p) (MusicPlayer.volume p)).
  pose proof (get_duration_flags p1 (MusicPlayer.read_duration f)) as (H1 & H2 & H3 & _).
  destruct (MusicPlayer.get_duration p1 (MusicPlayer.read_duration f)) as [emitted p2].
  simpl in *. rewrite H1, H2, H3. repeat split. discriminate.
Qed.

Lemma player_step_ok p o : player_ok p -> player_ok (player_step p o).
Proof.
  intros [Hx Ht]. destruct o as [file_path f | mixer_ok is_running | | | v]; simpl.
  - destruct (load_track_flags p file_path f) as (H1 & H2 & H3).
    split; rewrite H1, H2; [exact Hx|]. intros H. apply H3, Ht, H.
  - destruct p as [[track|] playing paused pos dur vol];
      unfold MusicPlayer.play, MusicPlayer.has_track; simpl in *; [|split; assumption].
    destruct (negb (String.eqb track "")); simpl; [|split; assumption].
    destruct mixer_ok; simpl; [|split; assumption].
    split; [destruct paused; reflexivity | discriminate].
  - destruct p as [track [|] paused pos dur vol];
      unfold MusicPlayer.pause; simpl in *; [|split; assumption].
    split; [reflexivity|]. intros _. apply Ht. reflexivity.
  - simpl. split; [reflexivity | discriminate].
  - simpl. split; assumption.
Qed.

(** X12.  Whatever sequence of [load_track], [play], [pause], [stop]
    and [set_volume] is applied to a fresh player, and whatever the
    files and the mixer do, [is_playing] and [is_paused] are never both
    set, and neither is set while no track was ever loaded. *)
Theorem player_flags_consistent (ops : list player_op) :
  MusicPlayer.is_playing (player_after ops) && MusicPlayer.is_paused (player_after ops) = false
  /\ (MusicPlayer.is_playing (player_after ops) || MusicPlayer.is_paused (player_after ops)
      = true ->
      MusicPlayer.current_track (player_after ops) <> None).
Proof.
  change (player_ok (player_after ops)). unfold player_after.
  assert (H0 : player_ok (snd MusicPlayer.init)).
  { split; [reflexivity | discriminate]. }
  revert H0. generalize (snd MusicPlayer.init).
  induction ops as [|o ops IH]; intros p Hp; simpl; [exact Hp|].
  apply IH, player_step_ok, Hp.
Qed.

Lemma player_flags_consistent_witness :
  MusicPlayer.is_playing
    (player_after [Load "a.flac" (MusicPlayer.mkFacts true (Some 5000%Z) true (Some 200%Z));
                   Play true false; Pause])
  || MusicPlayer.is_paused
       (player_after [Load "a.flac" (MusicPlayer.mkFacts true (Some 5000%Z) true (Some 200%Z));
                      Play true false; Pause])
  = true
  /\ MusicPlayer.current_track
       (player_after [Load "a.flac" (MusicPlayer.mkFacts true (Some 5000%Z) true (Some 200%Z));
                      Play true false; Pause])
     <> None.
Proof.
  split; [reflexivity|].
  exact (proj2 (player_flags_consistent
                  [Load "a.flac" (MusicPlayer.mkFacts true (Some 5000%Z) true (Some 200%Z));
                   Play true false; Pause]) eq_refl).
Defined.

(** X13.  Pausing a playing track and playing again resumes it: the
    mixer is paused and then unpaused, [play] is not called anew, and
    the player is back in the state it had before the pause, position
    included. *)
Theorem pause_then_play_resumes
    (p : MusicPlayer.player) (is_running : bool)
    (Hplaying : MusicPlayer.is_playing p = true)
    (Hnot_paused : MusicPlayer.is_paused p = false)
    (Htrack : MusicPlayer.has_track p = true) :
  MusicPlayer.pause p
  = ([MusicPlayer.mixer_pause],
     MusicPlayer.mkPlayer (MusicPlayer.current_track p) false true
       (MusicPlayer.position p) (MusicPlayer.duration p) (MusicPlayer.volume p))
  /\ MusicPlayer.play (snd (MusicPlayer.pause p)) true is_running
     = ([MusicPlayer.mixer_unpause] ++ (if is_running then [] else [MusicPlayer.start]),
        true, p).
Proof.
  destruct p as [track playing paused pos dur vol]. simpl in *. subst playing paused.
  unfold MusicPlayer.pause. simpl. split; [reflexivity|].
  unfold MusicPlayer.play, MusicPlayer.has_track in *. simpl in *.
  rewrite Htrack. reflexivity.
Qed.

Lemma pause_then_play_resumes_witness :
  MusicPlayer.play
    (snd (MusicPlayer.pause (MusicPlayer.mkPlayer (Some "a.flac") true false 42 200 (7 # 10))))
    true true
  = ([MusicPlayer.mixer_unpause] ++ [], true,
     MusicPlayer.mkPlayer (Some "a.flac") true false 42 200 (7 # 10)).
Proof.
  exact (proj2 (pause_then_play_resumes
                  (MusicPlayer.mkPlayer (Some "a.flac") true false 42 200 (7 # 10))
                  true eq_refl eq_refl eq_refl)).
Defined.

(** X14.  [load_track] fails in two ways.  For a missing file, a file
    of size 0 or one whose size cannot be read, nothing is called and the
    player is unchanged.  When pygame refuses the file, the player is
    left with [current_track] already set to the new path, and everything
    else as before; the duration still belongs to the track before. *)
Theorem load_track_failure
    (p : MusicPlayer.player) (file_path : string) (f : MusicPlayer.file_facts)
    (Hfailed : snd (fst (MusicPlayer.load_track p file_path f)) = false) :
  (MusicPlayer.load_track p file_path f = ([], false, p)
   /\ (MusicPlayer.path_exists f = false
       \/ MusicPlayer.getsize f = None
       \/ MusicPlayer.getsize f = Some 0%Z))
  \/ (MusicPlayer.load_track p file_path f
      = ([MusicPlayer.mixer_load file_path], false,
         MusicPlayer.mkPlayer (Some file_path) (MusicPlayer.is_playing p)
           (MusicPlayer.is_paused p) (MusicPlayer.position p)
           (MusicPlayer.duration p) (MusicPlayer.volume p))
      /\ MusicPlayer.mixer_loads f = false).
Proof.
  revert Hfailed. unfold MusicPlayer.load_track.
  destruct (MusicPlayer.path_exists f); simpl; [|auto].
  destruct (MusicPlayer.getsize f) as [size|]; [|auto].
  destruct (size =? 0)%Z eqn:Hz.
  { apply Z.eqb_eq in Hz. subst. auto. }
  destruct (MusicPlayer.mixer_loads f); simpl; [|auto].
  destruct (MusicPlayer.get_duration _ _). simpl. discriminate.
Qed.

Lemma load_track_failure_witness :
  snd (fst (MusicPlayer.load_track (snd MusicPlayer.init) "a.flac"
              (MusicPlayer.mkFacts true (Some 5000%Z) false None))) = false
  /\ MusicPlayer.current_track
       (snd (MusicPlayer.load_track (snd MusicPlayer.init) "a.flac"
               (MusicPlayer.mkFacts true (Some 5000%Z) false None)))
     = Some "a.flac".
Proof.
  split; [reflexivity|].
  destruct (load_track_failure (snd MusicPlayer.init) "a.flac"
              (MusicPlayer.mkFacts true (Some 5000%Z) false None) eq_refl)
    as [[H _]|[H _]]; [cbv in H; discriminate H | rewrite H; reflexivity].
Defined.

(* ------------------------------------------------------------------ *)
(** ** The playlist *)

Lemma py_in_spec x l : py_in x l = true <-> In x l.
Proof.
  unfold py_in. rewrite existsb_exists. split.
  - intros [y [Hy E]]. apply String.eqb_eq in E. subst. exact Hy.
  - intros H. exists x. split; [exact H | apply String.eqb_refl].
Qed.

Lemma py_in_false x l : py_in x l = false <-> ~ In x l.
Proof.
  rewrite <- py_in_spec. destruct (py_in x l); split; intros H; congruence.
Qed.

Lemma fold_add_file files :
  forall w,
    fold_left MagniTunesPlayer.add_file files w
    = MagniTunesPlayer.with_playlist w
        (MagniTunesPlayer.current_playlist w
           ++ new_files (MagniTunesPlayer.current_playlist w) files)
        (MagniTunesPlayer.playlist_widget w
           ++ new_files (MagniTunesPlayer.current_playlist w) files)
        (MagniTunesPlayer.current_row w).
Proof.
  induction files as [|x rest IH]; intros w; simpl.
  - rewrite !app_nil_r. destruct w; reflexivity.
  - rewrite IH. unfold MagniTunesPlayer.add_file.
    destruct (py_in x (MagniTunesPlayer.current_playlist w)); simpl.
    + reflexivity.
    + unfold MagniTunesPlayer.with_playlist, MagniTunesPlayer.add_to_playlist_widget. simpl.
      rewrite <- !app_assoc. reflexivity.
Qed.

Lemma new_files_in files :
  forall l x, In x (new_files l files) <-> In x files /\ ~ In x l.
Proof.
  induction files as [|y rest IH]; intros l x; simpl; [tauto|].
  destruct (py_in y l) eqn:E.
  - apply py_in_spec in E. rewrite IH.
    split; [tauto|]. intros [[->|H] Hn]; [contradiction | tauto].
  - apply py_in_false in E. simpl. rewrite IH, in_app_iff. simpl.
    destruct (string_dec y x) as [->|Hne]; [tauto|]. tauto.
Qed.

Lemma new_files_nodup files :
  forall l, NoDup l -> NoDup (l ++ new_files l files).
Proof.
  induction files as [|y rest IH]; intros l Hl; simpl.
  - rewrite app_nil_r. exact Hl.
  - destruct (py_in y l) eqn:E; [apply IH, Hl|].
    apply py_in_false in E.
    change (y :: new_files (l ++ [y]) rest) with ([y] ++ new_files (l ++ [y]) rest).
    rewrite app_assoc. apply IH.
    apply NoDup_app; [exact Hl | constructor; [intros [] | constructor] |].
    intros a Ha [<-|[]]. contradiction.
Qed.

Lemma new_files_known files :
  forall l, (forall x, In x files -> In x l) -> new_files l files = [].
Proof.
  induction files as [|y rest IH]; intros l H; simpl; [reflexivity|].
  assert (E : py_in y l = true) by (apply py_in_spec, H; left; reflexivity).
  rewrite E. apply IH. intros x Hx. apply H. right. exact Hx.
Qed.



(** X16.  Adding the same files a second time changes nothing in the
    window. *)
Theorem add_files_idempotent (w : MagniTunesPlayer.window) (file_paths : list string) :
  snd (MagniTunesPlayer.add_files_to_playlist
         (snd (MagniTunesPlayer.add_files_to_playlist w file_paths)) file_paths)
  = snd (MagniTunesPlayer.add_files_to_playlist w file_paths).
Proof.
  simpl. rewrite (fold_add_file file_paths (fold_left _ _ _)).
  rewrite new_files_known.
  - rewrite !app_nil_r. destruct (fold_left _ _ _); reflexivity.
  - intros x Hx. rewrite fold_add_file. simpl. rewrite in_app_iff.
    destruct (in_dec string_dec x (MagniTunesPlayer.current_playlist w)) as [Hi|Hn];
      [left; exact Hi|].
    right. apply new_files_in. split; assumption.
Qed.

(* ------------------------------------------------------------------ *)
(** ** Moving through the playlist *)

Lemma with_player_same w : MagniTunesPlayer.with_player w (MagniTunesPlayer.music_player w) = w.
Proof. destruct w; reflexivity. Qed.

(** [load_and_play_track] touches the player only, and keeps it
    consistent. *)
Lemma load_and_play_track_window w file_path o :
  exists p,
    snd (MagniTunesPlayer.load_and_play_track w file_path o)
    = MagniTunesPlayer.with_player w p
    /\ (player_ok (MagniTunesPlayer.music_player w) -> player_ok p).
Proof.
  unfold MagniTunesPlayer.load_and_play_track.
  destruct (negb (MusicPlayer.path_exists (MagniTunesPlayer.facts o file_path))).
  { exists (MagniTunesPlayer.music_player w). simpl. rewrite with_player_same. auto. }
  pose proof (player_step_ok (MagniTunesPlayer.music_player w)
                (Load file_path (MagniTunesPlayer.facts o file_path))) as H1.
  simpl in H1.
  destruct (MusicPlayer.load_track (MagniTunesPlayer.music_player w) file_path
              (MagniTunesPlayer.facts o file_path)) as [[loading loaded] p1].
  simpl in H1. destruct loaded.
  - pose proof (player_step_ok p1
                  (Play (MagniTunesPlayer.mixer_ok o) (MagniTunesPlayer.is_running o))) as H2.
    simpl in H2.
    destruct (MusicPlayer.play p1 (MagniTunesPlayer.mixer_ok o)
                (MagniTunesPlayer.is_running o)) as [[playing played] p2].
    exists p2. simpl in *. auto.
  - exists p1. simpl. auto.
Qed.

Lemma py_index_in_range {A} (l : list A) (i : Z) :
  (0 <= i < Z.of_nat (List.length l))%Z ->
  exists x, py_index l i = Some x /\ nth_error l (Z.to_nat i) = Some x.
Proof.
  intros Hi. unfold py_index.
  replace ((0 <=? i) && (i <? Z.of_nat (List.length l)))%Z with true
    by (symmetry; apply andb_true_iff; split; [apply Z.leb_le | apply Z.ltb_lt]; lia).
  destruct (nth_error l (Z.to_nat i)) as [x|] eqn:E; [eauto|].
  apply nth_error_None in E. lia.
Qed.

(** Where [next_track] and [previous_track] end up, from an index in
    range on. *)
Lemma go_to_in_range w i o :
  (0 <= i < Z.of_nat (List.length (MagniTunesPlayer.current_playlist w)))%Z ->
  exists shown p row,
    MagniTunesPlayer.go_to w i o
    = Some (shown,
            MagniTunesPlayer.with_row
              (MagniTunesPlayer.with_player (MagniTunesPlayer.with_index w i) p) row)
    /\ (player_ok (MagniTunesPlayer.music_player w) -> player_ok p).
Proof.
  intros Hi. unfold MagniTunesPlayer.go_to.
  destruct (py_index_in_range (MagniTunesPlayer.current_playlist w) i Hi) as (file & Hf & _).
  simpl. rewrite Hf.
  destruct (load_and_play_track_window (MagniTunesPlayer.with_index w i) file o)
    as (p & Hp & Hok).
  destruct (MagniTunesPlayer.load_and_play_track (MagniTunesPlayer.with_index w i) file o)
    as [shown w2].
  simpl in Hp. subst w2.
  unfold MagniTunesPlayer.highlight_current_track. simpl.
  replace (i <? Z.of_nat (List.length (MagniTunesPlayer.current_playlist w)))%Z with true
    by (symmetry; apply Z.ltb_lt; lia).
  rewrite Hf.
  destruct (MagniTunesPlayer.find_row file (MagniTunesPlayer.playlist_widget w)) as [r|].
  - exists shown, p, (Some r). split; [reflexivity | exact Hok].
  - exists shown, p, (MagniTunesPlayer.current_row w). split; [|exact Hok].
    destruct w; reflexivity.
Qed.

Lemma playlist_length_pos (l : list string) : l <> [] -> (0 < Z.of_nat (List.length l))%Z.
Proof. destruct l; [congruence | simpl; lia]. Qed.

Lemma next_previous_unfold w randint o :
  MagniTunesPlayer.current_playlist w <> [] ->
  MagniTunesPlayer.next_track w randint o
  = MagniTunesPlayer.go_to w
      (if MagniTunesPlayer.shuffle_mode w then randint
       else ((MagniTunesPlayer.current_track_index w + 1)
             mod Z.of_nat (List.length (MagniTunesPlayer.current_playlist w)))%Z) o
  /\ MagniTunesPlayer.previous_track w randint o
     = MagniTunesPlayer.go_to w
         (if MagniTunesPlayer.shuffle_mode w then randint
          else ((MagniTunesPlayer.current_track_index w - 1)
                mod Z.of_nat (List.length (MagniTunesPlayer.current_playlist w)))%Z) o.
Proof.
  intros Hne. unfold MagniTunesPlayer.next_track, MagniTunesPlayer.previous_track.
  destruct (MagniTunesPlayer.current_playlist w); [congruence | split; reflexivity].
Qed.

(** X17.  With a playlist that is not empty, and a random index within
    bounds when shuffling, [next_track] and [previous_track] never fail
    with an index error: the new index is within the playlist, whatever
    the index was before (it may be stale after the playlist was cleared
    and refilled), and the playlist and its rows are left as they
    were. *)
Theorem next_previous_in_range
    (w : MagniTunesPlayer.window) (randint : Z) (o : MagniTunesPlayer.world)
    (Hnonempty : MagniTunesPlayer.current_playlist w <> [])
    (Hrandint : MagniTunesPlayer.shuffle_mode w = true ->
                (0 <= randint
                 <= Z.of_nat (List.length (MagniTunesPlayer.current_playlist w)) - 1)%Z) :
  (exists shown w',
      MagniTunesPlayer.next_track w randint o = Some (shown, w')
      /\ (0 <= MagniTunesPlayer.current_track_index w'
          < Z.of_nat (List.length (MagniTunesPlayer.current_playlist w)))%Z
      /\ MagniTunesPlayer.current_playlist w' = MagniTunesPlayer.current_playlist w
      /\ MagniTunesPlayer.playlist_widget w' = MagniTunesPlayer.playlist_widget w)
  /\ (exists shown w',
        MagniTunesPlayer.previous_track w randint o = Some (shown, w')
        /\ (0 <= MagniTunesPlayer.current_track_index w'
            < Z.of_nat (List.length (MagniTunesPlayer.current_playlist w)))%Z
        /\ MagniTunesPlayer.current_playlist w' = MagniTunesPlayer.current_playlist w
        /\ MagniTunesPlayer.playlist_widget w' = MagniTunesPlayer.playlist_widget w).
Proof.
  pose proof (playlist_length_pos _ Hnonempty) as Hpos.
  set (n := Z.of_nat (List.length (MagniTunesPlayer.current_playlist w))) in *.
  assert (Hgo : forall i, (0 <= i < n)%Z ->
                  exists shown w',
                    MagniTunesPlayer.go_to w i o = Some (shown, w')
                    /\ (0 <= MagniTunesPlayer.current_track_index w' < n)%Z
                    /\ MagniTunesPlayer.current_playlist w'
                       = MagniTunesPlayer.current_playlist w
                    /\ MagniTunesPlayer.playlist_widget w'
                       = MagniTunesPlayer.playlist_widget w).
  { intros i Hi. destruct (go_to_in_range w i o Hi) as (shown & p & row & -> & _).
    eexists _, _. split; [reflexivity|]. simpl. auto. }
  destruct (next_previous_unfold w randint o Hnonempty) as [-> ->]. fold n.
  destruct (MagniTunesPlayer.shuffle_mode w).
  - split; apply Hgo; specialize (Hrandint eq_refl); lia.
  - split; apply Hgo; apply Z.mod_pos_bound; exact Hpos.
Qed.

Lemma next_previous_in_range_witness :
  MagniTunesPlayer.current_playlist three_tracks <> []
  /\ exists shown w',
      MagniTunesPlayer.next_track three_tracks 0 quiet_world = Some (shown, w')
      /\ (0 <= MagniTunesPlayer.current_track_index w' < 3)%Z.
Proof.
  assert (H : MagniTunesPlayer.current_playlist three_tracks <> []) by discriminate.
  split; [exact H|].
  assert (Hr : MagniTunesPlayer.shuffle_mode three_tracks = true ->
               (0 <= 0 <= Z.of_nat (List.length
                                      (MagniTunesPlayer.current_playlist three_tracks)) - 1)%Z)
    by discriminate.
  destruct (next_previous_in_range three_tracks 0 quiet_world H Hr)
    as [(shown & w' & H1 & H2 & _) _].
  exists shown, w'. split; [exact H1 | exact H2].
Defined.

(** X18.  Without shuffle and from an index within the playlist,
    [previous_track] after [next_track] is back at the index it started
    from, and [next_track] after [previous_track] as well. *)
Theorem previous_undoes_next
    (w : MagniTunesPlayer.window) (r1 r2 : Z) (o1 o2 : MagniTunesPlayer.world)
    (Hshuffle : MagniTunesPlayer.shuffle_mode w = false)
    (Hindex : (0 <= MagniTunesPlayer.current_track_index w
               < Z.of_nat (List.length (MagniTunesPlayer.current_playlist w)))%Z) :
  (exists s1 w1 s2 w2,
      MagniTunesPlayer.next_track w r1 o1 = Some (s1, w1)
      /\ MagniTunesPlayer.previous_track w1 r2 o2 = Some (s2, w2)
      /\ MagniTunesPlayer.current_track_index w2 = MagniTunesPlayer.current_track_index w)
  /\ (exists s1 w1 s2 w2,
        MagniTunesPlayer.previous_track w r1 o1 = Some (s1, w1)
        /\ MagniTunesPlayer.next_track w1 r2 o2 = Some (s2, w2)
        /\ MagniTunesPlayer.current_track_index w2 = MagniTunesPlayer.current_track_index w).
Proof.
  set (n := Z.of_nat (List.length (MagniTunesPlayer.current_playlist w))) in *.
  set (i := MagniTunesPlayer.current_track_index w) in *.
  assert (Hpos : (0 < n)%Z) by lia.
  assert (Hstep : forall w0 j,
             MagniTunesPlayer.current_playlist w0 = MagniTunesPlayer.current_playlist w ->
             (0 <= j < n)%Z ->
             forall o, exists shown w',
               MagniTunesPlayer.go_to w0 j o = Some (shown, w')
               /\ MagniTunesPlayer.current_track_index w' = j
               /\ MagniTunesPlayer.current_playlist w' = MagniTunesPlayer.current_playlist w
               /\ MagniTunesPlayer.shuffle_mode w' = MagniTunesPlayer.shuffle_mode w0).
  { intros w0 j Hl Hj o.
    assert (Hj' : (0 <= j < Z.of_nat (List.length (MagniTunesPlayer.current_playlist w0)))%Z)
      by (rewrite Hl; exact Hj).
    destruct (go_to_in_range w0 j o Hj') as (shown & p & row & -> & _).
    eexists _, _. split; [reflexivity|]. simpl. auto. }
  assert (Hnext : forall w0 r o,
             MagniTunesPlayer.current_playlist w0 = MagniTunesPlayer.current_playlist w ->
             MagniTunesPlayer.shuffle_mode w0 = false ->
             MagniTunesPlayer.next_track w0 r o
             = MagniTunesPlayer.go_to w0 ((MagniTunesPlayer.current_track_index w0 + 1) mod n) o
             /\ MagniTunesPlayer.previous_track w0 r o
                = MagniTunesPlayer.go_to w0
                    ((MagniTunesPlayer.current_track_index w0 - 1) mod n) o).
  { intros w0 r o Hl Hs.
    assert (Hne : MagniTunesPlayer.current_playlist w0 <> []).
    { rewrite Hl. intros E. unfold n in Hpos. rewrite E in Hpos. simpl in Hpos. lia. }
    destruct (next_previous_unfold w0 r o Hne) as [-> ->].
    rewrite Hs, Hl. fold n. split; reflexivity. }
  split.
  - destruct (Hnext w r1 o1 eq_refl Hshuffle) as [E1 _]. fold i in E1.
    destruct (Hstep w ((i + 1) mod n)%Z eq_refl (Z.mod_pos_bound _ _ Hpos) o1)
      as (s1 & w1 & G1 & I1 & L1 & S1).
    destruct (Hnext w1 r2 o2 L1 (eq_trans S1 Hshuffle)) as [_ E2].
    destruct (Hstep w1 ((MagniTunesPlayer.current_track_index w1 - 1) mod n)%Z L1
                (Z.mod_pos_bound _ _ Hpos) o2) as (s2 & w2 & G2 & I2 & _).
    exists s1, w1, s2, w2. rewrite E1, E2. split; [exact G1|]. split; [exact G2|].
    rewrite I2, I1, Zminus_mod_idemp_l.
    replace (i + 1 - 1)%Z with i by lia. apply Z.mod_small. exact Hindex.
  - destruct (Hnext w r1 o1 eq_refl Hshuffle) as [_ E1]. fold i in E1.
    destruct (Hstep w ((i - 1) mod n)%Z eq_refl (Z.mod_pos_bound _ _ Hpos) o1)
      as (s1 & w1 & G1 & I1 & L1 & S1).
    destruct (Hnext w1 r2 o2 L1 (eq_trans S1 Hshuffle)) as [E2 _].
    destruct (Hstep w1 ((MagniTunesPlayer.current_track_index w1 + 1) mod n)%Z L1
                (Z.mod_pos_bound _ _ Hpos) o2) as (s2 & w2 & G2 & I2 & _).
    exists s1, w1, s2, w2. rewrite E1, E2. split; [exact G1|]. split; [exact G2|].
    rewrite I2, I1, Zplus_mod_idemp_l.
    replace (i - 1 + 1)%Z with i by lia. apply Z.mod_small. exact Hindex.
Qed.

Lemma previous_undoes_next_witness :
  MagniTunesPlayer.shuffle_mode first_of_three = false
  /\ exists s1 w1 s2 w2,
      MagniTunesPlayer.previous_track first_of_three 0 quiet_world = Some (s1, w1)
      /\ MagniTunesPlayer.next_track w1 0 quiet_world = Some (s2, w2)
      /\ MagniTunesPlayer.current_track_index w2 = 0%Z.
Proof.
  split; [reflexivity|].
  assert (Hi : (0 <= MagniTunesPlayer.current_track_index first_of_three
                < Z.of_nat (List.length (MagniTunesPlayer.current_playlist first_of_three)))%Z)
    by (simpl; lia).
  exact (proj2 (previous_undoes_next first_of_three 0 0 quiet_world quiet_world eq_refl Hi)).
Defined.

(* ------------------------------------------------------------------ *)
(** ** The time labels *)

Lemma mmss_round_trip_all : forallb mmss_round_trip (seq 0 (Z.to_nat 6000)) = true.
Proof. vm_compute. reflexivity. Qed.

(** X19.  For a time from 0 up to 99 minutes 59 seconds, [format_time]
    gives five characters MM:SS, two digits each, which read back as the
    same number of seconds. *)
Theorem format_time_round_trip (seconds : Z) (Hrange : (0 <= seconds < 6000)%Z) :
  parse_mmss (MagniTunesPlayer.format_time seconds) = Some seconds
  /\ String.length (MagniTunesPlayer.format_time seconds) = 5%nat.
Proof.
  assert (Hin : In (Z.to_nat seconds) (seq 0 (Z.to_nat 6000))) by (apply in_seq; lia).
  pose proof (proj1 (forallb_forall _ _) mmss_round_trip_all _ Hin) as H.
  unfold mmss_round_trip in H. rewrite Z2Nat.id in H by lia.
  destruct (parse_mmss (MagniTunesPlayer.format_time seconds)) as [z|] eqn:E;
    [|discriminate].
  apply Z.eqb_eq in H. subst z. split; [reflexivity|].
  unfold parse_mmss in E.
  destruct (MagniTunesPlayer.format_time seconds) as [|a [|b [|c [|d [|e [|f r]]]]]];
    try discriminate. reflexivity.
Qed.

Lemma format_time_round_trip_witness :
  (0 <= 754 < 6000)%Z
  /\ MagniTunesPlayer.format_time 754 = "12:34"
  /\ parse_mmss (MagniTunesPlayer.format_time 754) = Some 754%Z.
Proof.
  assert (H : (0 <= 754 < 6000)%Z) by lia.
  split; [exact H|]. split; [reflexivity|].
  exact (proj1 (format_time_round_trip 754 H)).
Defined.

(* ------------------------------------------------------------------ *)
(** ** Choosing a track *)

Lemma py_list_index_spec x l :
  In x l ->
  exists i,
    py_list_index x l = Some i
    /\ nth_error l i = Some x
    /\ forall j, (j < i)%nat -> nth_error l j <> Some x.
Proof.
  induction l as [|y l IH]; intros Hin; [destruct Hin|].
  simpl. destruct (String.eqb y x) eqn:E.
  - apply String.eqb_eq in E. subst y. exists 0%nat.
    split; [reflexivity|]. split; [reflexivity|]. intros j Hj. lia.
  - apply String.eqb_neq in E. destruct Hin as [->|Hin]; [congruence|].
    destruct (IH Hin) as (i & -> & Hn & Hfirst).
    exists (S i). split; [reflexivity|]. split; [exact Hn|].
    intros [|j] Hj; simpl; [congruence | apply Hfirst; lia].
Qed.

(** X20.  Double-clicking a row whose file is in the playlist makes the
    current index the first position of that file in the playlist and
    loads and plays it; for a file that is not in the playlist nothing
    happens. *)
Theorem play_selected_track_index
    (w : MagniTunesPlayer.window) (file_path : string) (o : MagniTunesPlayer.world) :
  (In file_path (MagniTunesPlayer.current_playlist w) ->
   exists i,
     MagniTunesPlayer.play_selected_track w file_path o
     = MagniTunesPlayer.load_and_play_track
         (MagniTunesPlayer.with_index w (Z.of_nat i)) file_path o
     /\ MagniTunesPlayer.current_track_index
          (snd (MagniTunesPlayer.play_selected_track w file_path o)) = Z.of_nat i
     /\ nth_error (MagniTunesPlayer.current_playlist w) i = Some file_path
     /\ forall j, (j < i)%nat ->
                  nth_error (MagniTunesPlayer.current_playlist w) j <> Some file_path)
  /\ (~ In file_path (MagniTunesPlayer.current_playlist w) ->
      MagniTunesPlayer.play_selected_track w file_path o = ([], w)).
Proof.
  unfold MagniTunesPlayer.play_selected_track. split.
  - intros Hin. rewrite (proj2 (py_in_spec _ _) Hin).
    destruct (py_list_index_spec _ _ Hin) as (i & -> & Hn & Hfirst).
    exists i. split; [reflexivity|]. split; [|split; assumption].
    destruct (load_and_play_track_window
                (MagniTunesPlayer.with_index w (Z.of_nat i)) file_path o) as (p & -> & _).
    reflexivity.
  - intros Hn. rewrite (proj2 (py_in_false _ _) Hn). reflexivity.
Qed.

Lemma play_selected_track_index_witness :
  In "b.mp3" (MagniTunesPlayer.current_playlist three_tracks)
  /\ MagniTunesPlayer.current_track_index
       (snd (MagniTunesPlayer.play_selected_track three_tracks "b.mp3" quiet_world))
     = 1%Z.
Proof.
  assert (H : In "b.mp3" (MagniTunesPlayer.current_playlist three_tracks))
    by (right; left; reflexivity).
  split; [exact H|].
  destruct (proj1 (play_selected_track_index three_tracks "b.mp3" quiet_world) H)
    as (i & _ & Hi & Hn & _).
  rewrite Hi. destruct i as [|[|[|i]]]; try discriminate Hn; try reflexivity.
  destruct i; discriminate Hn.
Defined.

(* ------------------------------------------------------------------ *)
(** ** What the window keeps true *)

Lemma window_ok_with_player w p :
  window_ok w -> player_ok p -> window_ok (MagniTunesPlayer.with_player w p).
Proof. intros (H1 & H2 & _) Hp. repeat split; simpl; try assumption; apply Hp. Qed.

Lemma window_ok_with_index w i : window_ok w -> window_ok (MagniTunesPlayer.with_index w i).
Proof. intros H. exact H. Qed.

Lemma window_ok_with_row w r : window_ok w -> window_ok (MagniTunesPlayer.with_row w r).
Proof. intros H. exact H. Qed.

Lemma load_and_play_track_ok w file_path o :
  window_ok w -> window_ok (snd (MagniTunesPlayer.load_and_play_track w file_path o)).
Proof.
  intros Hw. destruct (load_and_play_track_window w file_path o) as (p & -> & Hp).
  apply window_ok_with_player; [exact Hw | apply Hp, Hw].
Qed.

Lemma highlight_some w w' :
  MagniTunesPlayer.highlight_current_track w = Some w' ->
  exists row, w' = MagniTunesPlayer.with_row w row.
Proof.
  unfold MagniTunesPlayer.highlight_current_track.
  destruct (_ <? _)%Z.
  - destruct (py_index _ _) as [file|]; [|discriminate].
    destruct (MagniTunesPlayer.find_row _ _) as [i|]; intros [= <-].
    + eauto.
    + exists (MagniTunesPlayer.current_row w). destruct w; reflexivity.
  - intros [= <-]. exists (MagniTunesPlayer.current_row w). destruct w; reflexivity.
Qed.

Lemma go_to_ok w i o r :
  window_ok w -> MagniTunesPlayer.go_to w i o = Some r -> window_ok (snd r).
Proof.
  intros Hw. unfold MagniTunesPlayer.go_to.
  destruct (py_index _ i) as [file|]; [|discriminate].
  pose proof (load_and_play_track_ok (MagniTunesPlayer.with_index w i) file o
                (window_ok_with_index w i Hw)) as H2.
  destruct (MagniTunesPlayer.load_and_play_track _ file o) as [shown w2]. simpl in H2.
  destruct (MagniTunesPlayer.highlight_current_track w2) as [w3|] eqn:E; [|discriminate].
  intros [= <-]. simpl. apply highlight_some in E as [row ->].
  apply window_ok_with_row, H2.
Qed.

Lemma next_track_ok w randint o r :
  window_ok w -> MagniTunesPlayer.next_track w randint o = Some r -> window_ok (snd r).
Proof.
  intros Hw H.
  destruct (MagniTunesPlayer.current_playlist w) as [|x l] eqn:E.
  - unfold MagniTunesPlayer.next_track in H. rewrite E in H. injection H as <-. exact Hw.
  - assert (Hne : MagniTunesPlayer.current_playlist w <> []) by (rewrite E; discriminate).
    rewrite (proj1 (next_previous_unfold w randint o Hne)) in H.
    eapply go_to_ok; eauto.
Qed.

Lemma previous_track_ok w randint o r :
  window_ok w -> MagniTunesPlayer.previous_track w randint o = Some r -> window_ok (snd r).
Proof.
  intros Hw H.
  destruct (MagniTunesPlayer.current_playlist w) as [|x l] eqn:E.
  - unfold MagniTunesPlayer.previous_track in H. rewrite E in H. injection H as <-. exact Hw.
  - assert (Hne : MagniTunesPlayer.current_playlist w <> []) by (rewrite E; discriminate).
    rewrite (proj2 (next_previous_unfold w randint o Hne)) in H.
    eapply go_to_ok; eauto.
Qed.

Lemma add_files_ok w file_paths :
  window_ok w -> window_ok (snd (MagniTunesPlayer.add_files_to_playlist w file_paths)).
Proof.
  intros (H1 & H2 & H3). simpl. rewrite fold_add_file.
  repeat split; simpl; try apply H3.
  - rewrite H1. reflexivity.
  - apply new_files_nodup, H2.
Qed.

Lemma window_step_ok w op w' :
  window_ok w -> window_step w op = Some w' -> window_ok w'.
Proof.
  intros Hw.
  destruct op as [file_paths | disk error | yes | r o | r o | r o | file_path o | o
                 | | | | value | text | a]; simpl.
  - intros [= <-]. apply add_files_ok, Hw.
  - intros [= <-]. unfold MagniTunesPlayer.add_test_files.
    destruct (match disk with
              | Some t => MagniTunesPlayer.test_entries _ _ _
              | None => _
              end) as [found raised].
    destruct raised; [exact Hw|].
    destruct found; [exact Hw | apply add_files_ok, Hw].
  - intros [= <-]. destruct yes; [|exact Hw]. simpl.
    repeat split; simpl; try constructor; try discriminate.
  - destruct (MagniTunesPlayer.next_track w r o) as [res|] eqn:E; [|discriminate].
    intros [= <-]. eapply next_track_ok; eauto.
  - destruct (MagniTunesPlayer.previous_track w r o) as [res|] eqn:E; [|discriminate].
    intros [= <-]. eapply previous_track_ok; eauto.
  - unfold MagniTunesPlayer.on_track_finished.
    destruct (MagniTunesPlayer.repeat_mode w).
    + destruct (py_index _ _) as [file|]; [|discriminate].
      intros [= <-]. apply load_and_play_track_ok, Hw.
    + destruct (MagniTunesPlayer.next_track w r o) as [res|] eqn:E; [|discriminate].
      intros [= <-]. eapply next_track_ok; eauto.
  - intros [= <-]. unfold MagniTunesPlayer.play_selected_track.
    destruct (py_in _ _); [|exact Hw].
    destruct (py_list_index _ _) as [i|]; [|exact Hw].
    apply load_and_play_track_ok, window_ok_with_index, Hw.
  - unfold MagniTunesPlayer.toggle_play_pause.
    destruct (MusicPlayer.is_playing _) eqn:Ep.
    + pose proof (player_step_ok (MagniTunesPlayer.music_player w) Pause
                    (proj2 (proj2 Hw))) as Hp. simpl in Hp.
      destruct (MusicPlayer.pause _) as [pausing p]. simpl. intros [= <-].
      apply window_ok_with_player; assumption.
    + destruct (MagniTunesPlayer.current_playlist w) eqn:E; [intros [= <-]; exact Hw|].
      destruct (_ <? _)%Z; [|intros [= <-]; exact Hw].
      destruct (MusicPlayer.current_track _).
      * pose proof (player_step_ok (MagniTunesPlayer.music_player w)
                      (Play (MagniTunesPlayer.mixer_ok o) (MagniTunesPlayer.is_running o))
                      (proj2 (proj2 Hw))) as Hp. simpl in Hp.
        destruct (MusicPlayer.play _ _ _) as [[playing played] p]. simpl.
        intros [= <-]. apply window_ok_with_player; assumption.
      * destruct (py_index _ _) as [file|]; [|discriminate].
        simpl. intros [= <-]. apply load_and_play_track_ok, Hw.
  - intros [= <-]. simpl. apply window_ok_with_player; [exact Hw|].
    split; [reflexivity | discriminate].
  - intros [= <-]. exact Hw.
  - intros [= <-]. exact Hw.
  - intros [= <-]. simpl. apply window_ok_with_player; [exact Hw|]. apply Hw.
  - intros [= <-]. unfold MagniTunesPlayer.start_download.
    destruct (String.eqb _ _); [exact Hw|].
    destruct (negb _); exact Hw.
  - intros [= <-].
    destruct a as [msg | ok msg | files | secs | path | cmd | | | dir]; try exact Hw.
    apply add_files_ok, Hw.
Qed.

(** X21.  Whatever the user and the worker do to a fresh window, in any
    order and with any files, as long as no slot raises: the rows of the
    list widget are exactly the playlist, in the same order; no path is
    in the playlist twice; and the player is never both playing and
    paused. *)
Theorem window_invariant
    (ops : list window_op) (w : MagniTunesPlayer.window)
    (Hafter : window_after MagniTunesPlayer.init ops = Some w) :
  MagniTunesPlayer.playlist_widget w = MagniTunesPlayer.current_playlist w
  /\ NoDup (MagniTunesPlayer.current_playlist w)
  /\ MusicPlayer.is_playing (MagniTunesPlayer.music_player w)
     && MusicPlayer.is_paused (MagniTunesPlayer.music_player w) = false.
Proof.
  assert (H : window_ok w).
  { assert (H0 : window_ok MagniTunesPlayer.init).
    { repeat split; simpl; try constructor; discriminate. }
    revert Hafter H0. generalize MagniTunesPlayer.init.
    induction ops as [|op rest IH]; intros w0 Hafter H0; simpl in Hafter.
    - injection Hafter as <-. exact H0.
    - destruct (window_step w0 op) as [w1|] eqn:E; [|discriminate].
      eapply IH; [exact Hafter|]. eapply window_step_ok; eauto. }
  destruct H as (H1 & H2 & H3 & _). auto.
Qed.

Lemma window_invariant_witness :
  exists w,
    window_after MagniTunesPlayer.init a_session = Some w
    /\ MagniTunesPlayer.playlist_widget w = ["c.ogg"]
    /\ NoDup (MagniTunesPlayer.current_playlist w).
Proof.
  destruct (window_after MagniTunesPlayer.init a_session) as [w|] eqn:E.
  - exists w. split; [reflexivity|].
    destruct (window_invariant a_session w E) as (_ & H2 & _).
    split; [|exact H2].
    vm_compute in E. injection E as <-. reflexivity.
  - vm_compute in E. discriminate E.
Defined.

(* ------------------------------------------------------------------ *)
(** ** Adding the files already on disk *)

Lemma test_files_spec playlist root files :
  forall found,
    existsb getsize_raises files = false ->
    MagniTunesPlayer.test_files playlist root files found
    = (found ++ filter (fresh playlist) (paths_of root files), false).
Proof.
  unfold paths_of.
  induction files as [|[file getsize] rest IH]; intros acc Hr; simpl.
  - rewrite app_nil_r. reflexivity.
  - simpl in Hr. apply orb_false_iff in Hr as [Hf Hr].
    unfold getsize_raises in Hf. unfold qualifies at 1. simpl in *.
    destruct (has_music_extension file); simpl in *.
    + destruct getsize as [size|]; [|discriminate].
      destruct (big_enough size); simpl.
      * unfold fresh at 1.
        destruct (negb (py_in (os_path_join root file) playlist)); simpl.
        -- rewrite IH by assumption. rewrite <- app_assoc. reflexivity.
        -- apply IH; assumption.
      * apply IH; assumption.
    + apply IH; assumption.
Qed.

Lemma test_entries_spec playlist entries :
  forall found,
    (forall e, In e entries -> existsb getsize_raises (snd e) = false) ->
    MagniTunesPlayer.test_entries playlist entries found
    = (found ++ filter (fresh playlist) (flat_map entry_paths entries), false).
Proof.
  induction entries as [|[[root dirs] files] rest IH]; intros acc Hr; simpl.
  - rewrite app_nil_r. reflexivity.
  - rewrite test_files_spec by (apply (Hr (root, dirs, files)); left; reflexivity).
    rewrite IH by (intros e He; apply Hr; right; exact He).
    unfold entry_paths at 2. simpl. rewrite filter_app, <- app_assoc. reflexivity.
Qed.

Lemma add_test_files_scan w t error :
  getsize_never_raises DOWNLOAD_DIR t ->
  MagniTunesPlayer.add_test_files w (Some t) error
  = match filter (fresh (MagniTunesPlayer.current_playlist w))
                 (scan_for_music_files DOWNLOAD_DIR t) with
    | [] => (no_files_found, w)
    | found => MagniTunesPlayer.add_files_to_playlist w found
    end.
Proof.
  intros Hreadable. unfold MagniTunesPlayer.add_test_files.
  rewrite test_entries_spec by exact Hreadable. simpl app.
  rewrite (scan_as_flat_map _ _ Hreadable).
  destruct (filter _ _); reflexivity.
Qed.

(** X22.  As long as no [getsize] raises, [add_test_files] adds to the
    playlist what the worker's scan would return for the download
    directory, less the paths that are in the playlist already; when
    nothing is left, or the directory does not exist, it reports that no
    audio files were found and changes nothing. *)
Theorem add_test_files_is_the_scan
    (w : MagniTunesPlayer.window) (t : tree) (error : string)
    (Hreadable : getsize_never_raises DOWNLOAD_DIR t) :
  MagniTunesPlayer.add_test_files w (Some t) error
  = match filter (fresh (MagniTunesPlayer.current_playlist w))
                 (scan_for_music_files DOWNLOAD_DIR t) with
    | [] => (no_files_found, w)
    | found => MagniTunesPlayer.add_files_to_playlist w found
    end
  /\ MagniTunesPlayer.add_test_files w None error = (no_files_found, w).
Proof.
  split; [|reflexivity].
  apply add_test_files_scan, Hreadable.
Qed.

Lemma a_library_readable : getsize_never_raises DOWNLOAD_DIR a_library.
Proof. intros e [<-|[<-|[]]]; reflexivity. Qed.

Lemma add_test_files_is_the_scan_witness :
  getsize_never_raises DOWNLOAD_DIR a_library
  /\ MagniTunesPlayer.current_playlist
       (snd (MagniTunesPlayer.add_test_files MagniTunesPlayer.init (Some a_library) ""))
     = ["music_downloads/torrent_5d41402a/01.flac"].
Proof.
  split; [exact a_library_readable|].
  rewrite (proj1 (add_test_files_is_the_scan MagniTunesPlayer.init a_library ""
                    a_library_readable)).
  reflexivity.
Defined.

Lemma add_files_playlist w file_paths :
  MagniTunesPlayer.current_playlist (snd (MagniTunesPlayer.add_files_to_playlist w file_paths))
  = MagniTunesPlayer.current_playlist w
    ++ new_files (MagniTunesPlayer.current_playlist w) file_paths.
Proof.
  unfold MagniTunesPlayer.add_files_to_playlist. cbn [snd].
  rewrite fold_add_file. reflexivity.
Qed.

Lemma filter_fresh_known playlist paths :
  (forall x, In x paths -> In x playlist) -> filter (fresh playlist) paths = [].
Proof.
  intros H. apply filter_none. intros x Hx. unfold fresh.
  rewrite (proj2 (py_in_spec _ _) (H x Hx)). reflexivity.
Qed.

(** X23.  Pressing the button a second time, with the disk unchanged
    and readable, finds nothing new: the files are in the playlist
    already, so the window reports "No audio files found" and stays as
    it is. *)
Theorem add_test_files_twice
    (w : MagniTunesPlayer.window) (t : tree) (error1 error2 : string)
    (Hreadable : getsize_never_raises DOWNLOAD_DIR t) :
  MagniTunesPlayer.add_test_files
    (snd (MagniTunesPlayer.add_test_files w (Some t) error1)) (Some t) error2
  = (no_files_found, snd (MagniTunesPlayer.add_test_files w (Some t) error1)).
Proof.
  rewrite (add_test_files_scan _ t error2 Hreadable).
  rewrite filter_fresh_known; [reflexivity|].
  intros x Hx.
  rewrite (add_test_files_scan w t error1 Hreadable).
  destruct (in_dec string_dec x (MagniTunesPlayer.current_playlist w)) as [Hi|Hn].
  - destruct (filter _ _) as [|f fs]; [exact Hi|].
    rewrite add_files_playlist. apply in_app_iff. left. exact Hi.
  - assert (Hf : In x (filter (fresh (MagniTunesPlayer.current_playlist w))
                         (scan_for_music_files DOWNLOAD_DIR t))).
    { apply filter_In. split; [exact Hx|]. unfold fresh.
      rewrite (proj2 (py_in_false _ _) Hn). reflexivity. }
    destruct (filter _ _) as [|f fs] eqn:E; [destruct Hf|].
    rewrite add_files_playlist. apply in_app_iff. right.
    apply new_files_in. split; assumption.
Qed.

Lemma add_test_files_twice_witness :
  getsize_never_raises DOWNLOAD_DIR a_library
  /\ fst (MagniTunesPlayer.add_test_files
            (snd (MagniTunesPlayer.add_test_files MagniTunesPlayer.init (Some a_library) ""))
            (Some a_library) "")
     = no_files_found.
Proof.
  split; [exact a_library_readable|].
  rewrite (add_test_files_twice MagniTunesPlayer.init a_library "" "" a_library_readable).
  reflexivity.
Defined.

(* ------------------------------------------------------------------ *)
(** ** From the input field to the worker and back *)

Lemma read_loop_failures start tr :
  forall st p msg,
    In (download_finished false msg) (exit_log (read_loop start tr st p)) ->
    msg = msg_timeout \/ exists line, msg = msg_error line.
Proof.
  induction tr as [now | now output poll rest IH]; intros st p msg; simpl.
  - destruct (timeout_check _ _); simpl; [|tauto].
    intros [H|[H|[]]]; [discriminate | injection H as <-; auto].
  - destruct (timeout_check _ _).
    { simpl. intros [H|[H|[]]]; [discriminate | injection H as <-; auto]. }
    destruct (String.eqb output "").
    { destruct poll; [simpl; tauto | apply IH]. }
    pose proof (process_output_log st output) as Hl.
    destruct (process_output st output) as [[lo so] ctl].
    unfold ctl_of, log_of in Hl; simpl in Hl.
    assert (Hk : In (download_finished false msg) lo -> exists line, msg = msg_error line).
    { intros Hin. destruct (Hl _ Hin) as [[m Hm]|[Hm _]]; [discriminate|].
      injection Hm as ->. eauto. }
    destruct ctl; simpl; auto.
    rewrite exit_log_prepend, in_app_iff. intros [H|H]; [auto | eapply IH; eauto].
Qed.

Lemma finish_not_invalid d t st returncode :
  ~ In (download_finished false msg_invalid) (finish d t st returncode).
Proof.
  unfold finish.
  destruct ((returncode =? 0)%Z || download_started st).
  - destruct (scan_for_music_files d t) as [|f fs].
    + destruct (all_files d t) as [|o os]; simpl.
      * intuition discriminate.
      * intros [H|[H|[H|[H|[]]]]]; discriminate.
    + simpl. intuition discriminate.
  - destruct (negb (connection_established st)); simpl; intuition discriminate.
Qed.

Lemma run_valid_not_invalid magnet_link env :
  startswith magnet_link "magnet:?" = true ->
  ~ In (download_finished false msg_invalid) (log (run magnet_link env)).
Proof.
  intros Hm.
  destruct (aria2_probe env) as [returncode| |] eqn:Hp.
  2:{ unfold run. rewrite Hm, Hp. simpl. intuition discriminate. }
  2:{ unfold run. rewrite Hm, Hp. simpl. intuition discriminate. }
  destruct (returncode =? 0)%Z eqn:Hz.
  2:{ unfold run. rewrite Hm, Hp. simpl. rewrite Hz. simpl. intuition discriminate. }
  apply Z.eqb_eq in Hz. subst returncode.
  pose proof (read_loop_failures (start_time env) (output_trace env)
                initial_state Running msg_invalid) as Hl.
  fold (run_loop env) in Hl.
  assert (Hloop : ~ In (download_finished false msg_invalid) (exit_log (run_loop env))).
  { intros H. destruct (Hl H) as [E|[line E]]; discriminate E. }
  assert (Hs : ~ In (download_finished false msg_invalid)
                 (spawn_log magnet_link env probe_ok_log)).
  { unfold spawn_log, probe_ok_log. simpl. intuition discriminate. }
  destruct (run_loop env) as [l st p | l st p | l st p] eqn:E; simpl in Hloop.
  - rewrite (run_break _ _ _ _ _ Hm Hp E). cbn [log]. rewrite !in_app_iff.
    pose proof (finish_not_invalid (download_subdir_of env) (downloaded env) st
                  (snd (communicate p (grace_exit env)))).
    assert (Hc : ~ In (download_finished false msg_invalid)
                   (fst (communicate p (grace_exit env)))).
    { destruct (communicate_log p (grace_exit env)) as [-> | ->]; simpl;
        intuition discriminate. }
    tauto.
  - rewrite (run_return _ _ _ _ _ Hm Hp E). cbn [log]. rewrite in_app_iff. tauto.
  - rewrite (run_blocked _ _ _ _ _ Hm Hp E). cbn [log]. rewrite in_app_iff. tauto.
Qed.

(** X24.  [start_download] starts a worker only for a text that, once
    stripped, is not empty and starts with "magnet:?"; the worker gets
    the stripped text, and its run never reports "Invalid magnet link
    format".  For any other text the window shows a warning and starts
    nothing. *)
Theorem start_download_validates
    (w : MagniTunesPlayer.window) (text : string) :
  (forall magnet_link,
      In (MagniTunesPlayer.worker_start magnet_link)
         (fst (MagniTunesPlayer.start_download w text)) ->
      magnet_link = strip text
      /\ startswith magnet_link "magnet:?" = true
      /\ MagniTunesPlayer.download_worker (snd (MagniTunesPlayer.start_download w text))
         = Some magnet_link
      /\ forall env, ~ In (download_finished false msg_invalid) (log (run magnet_link env)))
  /\ (startswith (strip text) "magnet:?" = false ->
      snd (MagniTunesPlayer.start_download w text) = w
      /\ exists title message,
          fst (MagniTunesPlayer.start_download w text)
          = [MagniTunesPlayer.warning title message]).
Proof.
  unfold MagniTunesPlayer.start_download. split.
  - intros m.
    destruct (String.eqb (strip text) ""); [simpl; intuition discriminate|].
    destruct (startswith (strip text) "magnet:?") eqn:Hs; simpl;
      [|intuition discriminate].
    intros [H|[H|[]]]; [discriminate|]. injection H as <-.
    split; [reflexivity|]. split; [exact Hs|]. split; [reflexivity|].
    intros env. apply run_valid_not_invalid, Hs.
  - intros Hs. rewrite Hs.
    destruct (String.eqb (strip text) ""); simpl; split; eauto.
Qed.

Lemma start_download_validates_witness :
  In (MagniTunesPlayer.worker_start a_magnet_link)
     (fst (MagniTunesPlayer.start_download MagniTunesPlayer.init
             ("  " ++ a_magnet_link ++ newline)))
  /\ forall env, ~ In (download_finished false msg_invalid) (log (run a_magnet_link env)).
Proof.
  assert (H : In (MagniTunesPlayer.worker_start a_magnet_link)
                (fst (MagniTunesPlayer.start_download MagniTunesPlayer.init
                        ("  " ++ a_magnet_link ++ newline))))
    by (right; left; reflexivity).
  split; [exact H|].
  exact (proj2 (proj2 (proj2 (proj1 (start_download_validates MagniTunesPlayer.init
                                       ("  " ++ a_magnet_link ++ newline)) _ H)))).
Defined.

Lemma deliver_app signals1 :
  forall w signals2,
    snd (MagniTunesPlayer.deliver w (signals1 ++ signals2))
    = snd (MagniTunesPlayer.deliver (snd (MagniTunesPlayer.deliver w signals1)) signals2).
Proof.
  induction signals1 as [|a rest IH]; intros w signals2; simpl; [reflexivity|].
  destruct (MagniTunesPlayer.on_signal w a) as [shown w1].
  specialize (IH w1 signals2).
  destruct (MagniTunesPlayer.deliver w1 (rest ++ signals2)) as [s2 w2].
  destruct (MagniTunesPlayer.deliver w1 rest) as [s3 w3]. simpl in *. exact IH.
Qed.

Lemma on_signal_playlist w a :
  exists added,
    MagniTunesPlayer.current_playlist (snd (MagniTunesPlayer.on_signal w a))
    = MagniTunesPlayer.current_playlist w ++ added
    /\ MagniTunesPlayer.playlist_widget (snd (MagniTunesPlayer.on_signal w a))
       = MagniTunesPlayer.playlist_widget w ++ added
    /\ (NoDup (MagniTunesPlayer.current_playlist w) ->
        NoDup (MagniTunesPlayer.current_playlist (snd (MagniTunesPlayer.on_signal w a))))
    /\ forall x, In x added -> exists files, a = files_found files /\ In x files.
Proof.
  destruct a as [msg | ok msg | files | secs | path | cmd | | | dir];
    try (exists []; simpl; rewrite !app_nil_r; repeat split; auto; intros x []).
  exists (new_files (MagniTunesPlayer.current_playlist w) files).
  unfold MagniTunesPlayer.on_signal, MagniTunesPlayer.add_files_to_playlist. cbn [snd].
  rewrite fold_add_file. simpl.
  split; [reflexivity|]. split; [reflexivity|]. split; [apply new_files_nodup|].
  intros x Hx. apply new_files_in in Hx as [Hx _]. eauto.
Qed.

Lemma deliver_playlist signals :
  forall w,
    exists added,
      MagniTunesPlayer.current_playlist (snd (MagniTunesPlayer.deliver w signals))
      = MagniTunesPlayer.current_playlist w ++ added
      /\ MagniTunesPlayer.playlist_widget (snd (MagniTunesPlayer.deliver w signals))
         = MagniTunesPlayer.playlist_widget w ++ added
      /\ (NoDup (MagniTunesPlayer.current_playlist w) ->
          NoDup (MagniTunesPlayer.current_playlist (snd (MagniTunesPlayer.deliver w signals))))
      /\ forall x, In x added -> exists files, In (files_found files) signals /\ In x files.
Proof.
  induction signals as [|a rest IH]; intros w; simpl.
  - exists []. rewrite !app_nil_r. repeat split; auto. intros x [].
  - destruct (on_signal_playlist w a) as (added1 & P1 & W1 & N1 & F1).
    destruct (MagniTunesPlayer.on_signal w a) as [shown w1]. simpl in *.
    destruct (IH w1) as (added2 & P2 & W2 & N2 & F2).
    destruct (MagniTunesPlayer.deliver w1 rest) as [shown2 w2]. simpl in *.
    exists (added1 ++ added2).
    rewrite P2, W2, P1, W1, <- !app_assoc.
    split; [reflexivity|]. split; [reflexivity|].
    split; [intros H; rewrite app_assoc, <- P1, <- P2; auto|].
    intros x Hx. apply in_app_iff in Hx as [Hx|Hx].
    + destruct (F1 x Hx) as (files & -> & Hin). eauto.
    + destruct (F2 x Hx) as (files & Hf & Hin). eauto.
Qed.

Lemma finish_files_found d t st returncode files :
  In (files_found files) (finish d t st returncode) -> files = scan_for_music_files d t.
Proof.
  unfold finish.
  destruct ((returncode =? 0)%Z || download_started st).
  - destruct (scan_for_music_files d t) as [|f fs].
    + destruct (all_files d t); simpl; intuition discriminate.
    + simpl. intros [H|[H|[H|[H|[]]]]]; try discriminate. injection H as <-. reflexivity.
  - destruct (negb (connection_established st)); simpl; intuition discriminate.
Qed.

Lemma run_files_found magnet_link env files :
  In (files_found files) (log (run magnet_link env)) ->
  files = scan_for_music_files (download_subdir_of env) (downloaded env).
Proof.
  destruct (startswith magnet_link "magnet:?") eqn:Hm.
  2:{ unfold run. rewrite Hm. simpl. intuition discriminate. }
  destruct (aria2_probe env) as [returncode| |] eqn:Hp.
  2:{ unfold run. rewrite Hm, Hp. simpl. intuition discriminate. }
  2:{ unfold run. rewrite Hm, Hp. simpl. intuition discriminate. }
  destruct (returncode =? 0)%Z eqn:Hz.
  2:{ unfold run. rewrite Hm, Hp. simpl. rewrite Hz. simpl. intuition discriminate. }
  apply Z.eqb_eq in Hz. subst returncode.
  pose proof (read_loop_kinds (start_time env) (output_trace env)
                initial_state Running) as Hl.
  fold (run_loop env) in Hl.
  assert (Hs : ~ In (files_found files) (spawn_log magnet_link env probe_ok_log)).
  { unfold spawn_log, probe_ok_log. simpl. intuition discriminate. }
  destruct (run_loop env) as [l st p | l st p | l st p] eqn:E; simpl in Hl.
  - rewrite (run_break _ _ _ _ _ Hm Hp E). cbn [log].
    rewrite !in_app_iff. intros [H|[H|[H|H]]].
    + contradiction.
    + destruct (Hl _ H).
    + destruct (communicate_log p (grace_exit env)) as [Hc|Hc]; rewrite Hc in H;
        simpl in H; intuition discriminate.
    + eapply finish_files_found; eauto.
  - rewrite (run_return _ _ _ _ _ Hm Hp E). cbn [log].
    rewrite in_app_iff. intros [H|H]; [contradiction | destruct (Hl _ H)].
  - rewrite (run_blocked _ _ _ _ _ Hm Hp E). cbn [log].
    rewrite in_app_iff. intros [H|H]; [contradiction | destruct (Hl _ H)].
Qed.

(** X25.  When the signals of a run are delivered to the window in
    order, the playlist (and with it the list widget) only grows at its
    end, by paths of files with a music extension and a size above 1024
    found below the download subdirectory; it has no duplicates if it
    had none; and once a run that came to an end has been delivered, the
    window holds no worker any more. *)
Theorem delivered_run
    (magnet_link : string) (env : environment) (w : MagniTunesPlayer.window)
    (Hnodup : NoDup (MagniTunesPlayer.current_playlist w)) :
  let w' := snd (MagniTunesPlayer.deliver w (log (run magnet_link env))) in
  (exists added,
      MagniTunesPlayer.current_playlist w' = MagniTunesPlayer.current_playlist w ++ added
      /\ MagniTunesPlayer.playlist_widget w' = MagniTunesPlayer.playlist_widget w ++ added
      /\ forall x, In x added ->
                   qualifying_path (download_subdir_of env) (downloaded env) x)
  /\ NoDup (MagniTunesPlayer.current_playlist w')
  /\ (blocked (run magnet_link env) = false -> MagniTunesPlayer.download_worker w' = None).
Proof.
  intros w'. subst w'.
  destruct (deliver_playlist (log (run magnet_link env)) w) as (added & P & W & N & F).
  split; [|split].
  - exists added. split; [exact P|]. split; [exact W|].
    intros x Hx. destruct (F x Hx) as (files & Hf & Hin).
    apply run_files_found in Hf. subst files. apply scan_sound, Hin.
  - apply N, Hnodup.
  - intros Hb. pose proof (run_outcomes magnet_link env) as H1.
    rewrite Hb in H1. destruct H1 as (pre & ok & msg & -> & _).
    rewrite deliver_app. simpl.
    destruct ok; reflexivity.
Qed.

Lemma delivered_run_witness :
  NoDup (MagniTunesPlayer.current_playlist MagniTunesPlayer.init)
  /\ MagniTunesPlayer.current_playlist
       (snd (MagniTunesPlayer.deliver MagniTunesPlayer.init
               (log (run a_magnet_link env_one_track))))
     = ["music_downloads/torrent_5d41402a/cd1/01 Intro.FLAC"]
  /\ NoDup (MagniTunesPlayer.current_playlist
              (snd (MagniTunesPlayer.deliver MagniTunesPlayer.init
                      (log (run a_magnet_link env_one_track))))).
Proof.
  assert (H : NoDup (MagniTunesPlayer.current_playlist MagniTunesPlayer.init))
    by constructor.
  split; [exact H|]. split; [vm_compute; reflexivity|].
  exact (proj1 (proj2 (delivered_run a_magnet_link env_one_track MagniTunesPlayer.init H))).
Defined.

(* ------------------------------------------------------------------ *)
(** ** The streamer's search for a video *)

Lemma find_app {A} (f : A -> bool) (l1 l2 : list A) :
  find f (l1 ++ l2) = match find f l1 with
                      | Some x => Some x
                      | None => find f l2
                      end.
Proof.
  induction l1 as [|a l1 IH]; simpl; [reflexivity|].
  destruct (f a); [reflexivity | exact IH].
Qed.

Lemma first_video_find files :
  Aria2TorrentStreamer.first_video files
  = find Aria2TorrentStreamer.is_video (map fst files).
Proof.
  induction files as [|[file size] rest IH]; simpl; [reflexivity|].
  destruct (Aria2TorrentStreamer.is_video file); [reflexivity | exact IH].
Qed.

Lemma find_in_entries_find entries :
  Aria2TorrentStreamer.find_in_entries entries
  = find Aria2TorrentStreamer.is_video
      (flat_map (fun e : walk_entry => map fst (snd e)) entries).
Proof.
  induction entries as [|[[root dirs] files] rest IH]; simpl; [reflexivity|].
  rewrite find_app, <- first_video_find, IH. reflexivity.
Qed.

(** X26.  [find_video_file] returns the bare name of the first file, in
    the order of the walk, whose name ends in ".mp4", ".mkv", ".avi" or
    ".mov" in exactly that letter case; it returns [None] exactly when
    no file below the directory has such a name. *)
Theorem find_video_file_first (t : tree) :
  Aria2TorrentStreamer.find_video_file t
  = find Aria2TorrentStreamer.is_video (all_files Aria2TorrentStreamer.DOWNLOAD_DIR t)
  /\ match Aria2TorrentStreamer.find_video_file t with
     | Some file =>
         Aria2TorrentStreamer.is_video file = true
         /\ In file (all_files Aria2TorrentStreamer.DOWNLOAD_DIR t)
     | None =>
         forall file, In file (all_files Aria2TorrentStreamer.DOWNLOAD_DIR t) ->
                      Aria2TorrentStreamer.is_video file = false
     end.
Proof.
  assert (E : Aria2TorrentStreamer.find_video_file t
              = find Aria2TorrentStreamer.is_video
                  (all_files Aria2TorrentStreamer.DOWNLOAD_DIR t)).
  { unfold Aria2TorrentStreamer.find_video_file. apply find_in_entries_find. }
  split; [exact E|]. rewrite E.
  destruct (find _ _) as [file|] eqn:F.
  - apply find_some in F. tauto.
  - intros file Hin. exact (find_none _ _ F file Hin).
Qed.

Lemma find_video_file_first_witness :
  Aria2TorrentStreamer.find_video_file
    (Dir [("HOLIDAY.MP4", Some 5000%Z)] [("music", Dir [("a.flac", Some 9000%Z)] [])])
  = None
  /\ forall file,
      In file (all_files Aria2TorrentStreamer.DOWNLOAD_DIR
                 (Dir [("HOLIDAY.MP4", Some 5000%Z)]
                      [("music", Dir [("a.flac", Some 9000%Z)] [])])) ->
      Aria2TorrentStreamer.is_video file = false.
Proof.
  split; [reflexivity|].
  exact (proj2 (find_video_file_first
                  (Dir [("HOLIDAY.MP4", Some 5000%Z)]
                       [("music", Dir [("a.flac", Some 9000%Z)] [])]))).
Defined.

Example video_case_sensitive :
  Aria2TorrentStreamer.find_video_file
    (Dir [("HOLIDAY.MP4", Some 5000%Z)] [("clips", Dir [("b.mkv", Some 1%Z)] [])])
  = Some "b.mkv".
Proof. reflexivity. Qed.

(** X27.  The name that [find_video_file] returns carries no directory.
    When no file directly in the download directory is a video and a
    video is found, it lies in a subdirectory, and the download
    directory itself has no file of that name: the path that opening and
    deleting build from the name is not that of the file found. *)
Theorem video_in_subdirectory
    (files : list (string * option Z)) (subdirs : list (string * tree)) (file : string)
    (Htop : Aria2TorrentStreamer.first_video files = None)
    (Hfound : Aria2TorrentStreamer.find_video_file (Dir files subdirs) = Some file) :
  ~ In file (map fst files)
  /\ exists name sub,
      In (name, sub) subdirs
      /\ In file (all_files (os_path_join Aria2TorrentStreamer.DOWNLOAD_DIR name) sub).
Proof.
  unfold Aria2TorrentStreamer.find_video_file in Hfound.
  rewrite walk_unfold in Hfound. simpl in Hfound. rewrite Htop in Hfound.
  rewrite find_in_entries_find in Hfound. apply find_some in Hfound as [Hin Hv].
  split.
  - intros Hf. rewrite first_video_find in Htop.
    rewrite (find_none _ _ Htop file Hf) in Hv. discriminate.
  - apply in_flat_map in Hin as (e & He & Hfe).
    apply in_flat_map in He as ([name sub] & Hs & Hw).
    exists name, sub. split; [exact Hs|].
    unfold all_files. apply in_flat_map. exists e. split; assumption.
Qed.

Lemma video_in_subdirectory_witness :
  Aria2TorrentStreamer.first_video [("readme.txt", Some 10%Z)] = None
  /\ Aria2TorrentStreamer.find_video_file
       (Dir [("readme.txt", Some 10%Z)] [("film", Dir [("a.mp4", Some 7000%Z)] [])])
     = Some "a.mp4"
  /\ ~ In "a.mp4" (map fst [("readme.txt", Some 10%Z)])
  /\ Aria2TorrentStreamer.video_path "a.mp4" = "downloads/a.mp4".
Proof.
  split; [reflexivity|]. split; [reflexivity|]. split; [|reflexivity].
  exact (proj1 (video_in_subdirectory [("readme.txt", Some 10%Z)]
                  [("film", Dir [("a.mp4", Some 7000%Z)] [])] "a.mp4" eq_refl eq_refl)).
Defined.

End Worker.
